(** * Reference-safe pickling: [to_pickle] / [from_pickle] of src/utils/utils.py

    A shallow embedding of the object-reference pickling scheme of the
    helper module (Python 2).  The two functions walk an arbitrary nested
    value; the encoder replaces every database entity by the packed triple
    [('__packed_dbobj__', natural_key, id)], the decoder fetches the entity
    back from storage.

    What is outside the module (the Django ORM, the ContentType table, the
    pickle library, the attributes of live objects) is gathered in a record
    [Env]; the functions of the module are translated line by line on top of
    it.  Raised exceptions and the observable actions on the outside world
    (attribute reads, the transaction commit, fetches by identity) are kept
    in a small writer-and-error monad. *)

From Stdlib Require Import ZArith Ascii String.
From stdpp Require Import base option list strings gmap pretty.

#[local] Set Warnings "-register-all".
Local Open Scope string_scope.
Local Open Scope list_scope.

(** ** Python values *)

(** Live objects sit in the interpreter's heap and are compared by identity:
    a value only holds their address. *)
Definition addr := nat.

(** A model class, named by its class name. *)
Definition ModelClass := string.

(** [VStr] stands for both [str] and [unicode] (they compare equal when
    their text does); [VFloat] carries the IEEE-754 binary64 bit pattern;
    [VDict] lists the items in the order [items()] yields them; [VSet]
    stands for the iterables that are neither tuple, dict nor list, in
    iteration order; [VObj] is any other instance, one without an
    [__iter__] attribute.  The containers are the built-in ones, whose
    iteration raises nothing: an object that has [__iter__] and fails when
    iterated (a class such as [list] itself, for one) is not among these
    values. *)
Inductive Value : Type :=
| VNone
| VBool (b : bool)
| VInt (n : Z)
| VLong (n : Z)
| VFloat (bits : Z)
| VStr (s : string)
| VTuple (items : list Value)
| VList (items : list Value)
| VDict (items : list (Value * Value))
| VSet (items : list Value)
| VObj (a : addr).

(** The type objects that [type(item)] is compared with.  No value has
    [basestring] as its exact type. *)
Inductive PyType :=
| TNone | TBool | TInt | TLong | TFloat | TBasestring | TStr
| TTuple | TList | TDict | TSet | TInstance.

Definition PyType_eqb (a b : PyType) : bool :=
  match a, b with
  | TNone, TNone | TBool, TBool | TInt, TInt | TLong, TLong
  | TFloat, TFloat | TBasestring, TBasestring | TStr, TStr
  | TTuple, TTuple | TList, TList | TDict, TDict | TSet, TSet
  | TInstance, TInstance => true
  | _, _ => false
  end.

(** [type(item)] *)
Definition type_of (v : Value) : PyType :=
  match v with
  | VNone => TNone
  | VBool _ => TBool
  | VInt _ => TInt
  | VLong _ => TLong
  | VFloat _ => TFloat
  | VStr _ => TStr
  | VTuple _ => TTuple
  | VList _ => TList
  | VDict _ => TDict
  | VSet _ => TSet
  | VObj _ => TInstance
  end.

(** [dtype in (t1, t2, ...)] *)
Definition type_in (t : PyType) (ts : list PyType) : bool :=
  existsb (PyType_eqb t) ts.

(** [len(o)] and [o[i]] on the built-in containers. *)
Definition py_len (v : Value) : nat :=
  match v with
  | VTuple l | VList l | VSet l => length l
  | VDict l => length l
  | VStr s => String.length s
  | _ => 0
  end.

Definition py_index (v : Value) (i : nat) : Value :=
  match v with
  | VTuple l | VList l => nth i l VNone
  | _ => VNone
  end.

(** [v == 'text'] for a string literal. *)
Definition eq_str (v : Value) (s : string) : bool :=
  match v with
  | VStr s' => String.eqb s' s
  | _ => false
  end.

(** A binary64 pattern is a zero when everything but the sign bit is clear. *)
Definition float_is_zero (bits : Z) : bool :=
  Z.eqb (Z.land bits (Z.ones 63)) 0.

(** [v == False] on the built-in values: [False], [0], [0L] and [0.0]
    compare equal to [False]. *)
Definition eq_False (v : Value) : bool :=
  match v with
  | VBool b => negb b
  | VInt n | VLong n => Z.eqb n 0
  | VFloat bits => float_is_zero bits
  | _ => false
  end.

(** Only hashable values can be dictionary keys. *)
Fixpoint hashable (v : Value) : bool :=
  match v with
  | VList _ | VDict _ | VSet _ => false
  | VTuple l => forallb hashable l
  | _ => true
  end.

(** [str.lower()] on byte strings: the ASCII capitals are shifted. *)
Definition lower_ascii (c : ascii) : ascii :=
  let n := nat_of_ascii c in
  if Nat.leb 65 n && Nat.leb n 90 then ascii_of_nat (n + 32) else c.

Fixpoint lower (s : string) : string :=
  match s with
  | EmptyString => EmptyString
  | String c r => String (lower_ascii c) (lower r)
  end.

(** ** The outside world *)

Inductive Exc :=
| AttributeError
| TypeError
| DoesNotExist
| OtherError (msg : string).

(** A row of Django's ContentType table. [model_class()] is [None] for a
    row whose model is no longer installed. *)
Record ContentType := {
  app_label : string;
  model : string;
  model_class : option ModelClass
}.

(** [c.natural_key()] *)
Definition natural_key (c : ContentType) : string * string :=
  (app_label c, model c).

Record Env := {
  (** [o.__class__.__name__] of a live object *)
  obj_class : addr -> string;
  (** the attributes a live object answers to, with their values *)
  obj_attr : addr -> string -> option Value;
  (** the truth value of a live object *)
  obj_truthy : addr -> bool;
  (** what [o != False] answers for a live object: [True] unless its class
      says otherwise, as [complex] and [Decimal] do for their zero *)
  obj_ne_False : addr -> bool;
  (** [ContentType.objects.all()] as the first call of [to_pickle] finds it *)
  content_types : list ContentType;
  (** [ContentType.objects.all()] as the first call of [from_pickle] finds
      it *)
  content_types_decode : list ContentType;
  (** [cls.objects.get(id=i)]: the stored instance, or the exception *)
  objects_get : ModelClass -> Value -> Exc + addr;
  (** [pickle.dumps(data, pickle.HIGHEST_PROTOCOL)] *)
  pickle_dumps : Value -> Exc + string;
  (** [pickle.loads(text)] *)
  pickle_loads : string -> Exc + Value
}.

(** ** Effects *)

(** What a run does to the outside world.  A probe by [hasattr] is not an
    event; evaluating [obj.name] is. *)
Inductive Event :=
| EvRead (obj : Value) (name : string)      (* obj.name is evaluated *)
| EvCommit                                  (* transaction.commit() *)
| EvGet (cls : ModelClass) (ident : Value). (* cls.objects.get(id=ident) *)

(** A computation yields the events it performed, in order, and either the
    exception it raised or its result. *)
Definition M (A : Type) : Type := list Event * (Exc + A).

Definition ret {A} (a : A) : M A := ([], inr a).
Definition raise {A} (e : Exc) : M A := ([], inl e).
Definition emit (ev : Event) : M unit := ([ev], inr tt).

Definition bind {A B} (m : M A) (f : A -> M B) : M B :=
  match m with
  | (t, inl e) => (t, inl e)
  | (t, inr a) => let '(t', r) := f a in (t ++ t', r)
  end.

Notation "'let!' x ':=' m 'in' k" := (bind m (fun x => k))
  (at level 10, x name, m at level 200, k at level 200).

(** [[f(x) for x in l]]: left to right, stopping at the first exception. *)
Definition mapM {A B} (f : A -> M B) : list A -> M (list B) :=
  fix go (l : list A) : M (list B) :=
    match l with
    | [] => ret []
    | x :: xs => let! y := f x in let! ys := go xs in ret (y :: ys)
    end.

Definition trace {A} (m : M A) : list Event := fst m.
Definition outcome {A} (m : M A) : Exc + A := snd m.

Section Pickling.

Variable env : Env.

(** Truth value of a Python value. *)
Definition truthy (v : Value) : bool :=
  match v with
  | VNone => false
  | VBool b => b
  | VInt n | VLong n => negb (Z.eqb n 0)
  | VFloat bits => negb (float_is_zero bits)
  | VStr s => negb (String.eqb s "")
  | VTuple l | VList l | VSet l => negb (Nat.eqb (length l) 0)
  | VDict l => negb (Nat.eqb (length l) 0)
  | VObj a => obj_truthy env a
  end.

(** [hasattr(v, name)], for the names the module probes ([dbobj], [id],
    [typeclass]): none of the built-in types answers to them. *)
Definition hasattr (v : Value) (name : string) : bool :=
  match v with
  | VObj a => bool_decide (is_Some (obj_attr env a name))
  | _ => false
  end.

(** [v.name] *)
Definition getattr (v : Value) (name : string) : M Value :=
  match v with
  | VObj a =>
      match obj_attr env a name with
      | Some x => let! _ := emit (EvRead v name) in ret x
      | None => raise AttributeError
      end
  | _ => raise AttributeError
  end.

(** [v.__class__.__name__] *)
Definition class_name (v : Value) : string :=
  match v with
  | VNone => "NoneType"
  | VBool _ => "bool"
  | VInt _ => "int"
  | VLong _ => "long"
  | VFloat _ => "float"
  | VStr _ => "str"
  | VTuple _ => "tuple"
  | VList _ => "list"
  | VDict _ => "dict"
  | VSet _ => "set"
  | VObj a => obj_class env a
  end.

(** *** The type-key directory

    [_FROM_MODEL_MAP] and [_TO_MODEL_MAP] are module globals, filled from
    the ContentType table the first time they are needed, each by the
    function that uses it, and kept for the life of the process; they are
    given here as they stand once filled.
    Both are [defaultdict(str)]: a key that is missing reads as the empty
    string (and is then stored with that value, which changes no later
    answer). *)

(** [dict((c.model, c.natural_key()) for c in ContentType.objects.all())]:
    a later row replaces an earlier one with the same model name. *)
Definition _FROM_MODEL_MAP : gmap string (string * string) :=
  foldl (fun m c => <[model c := natural_key c]> m) ∅ (content_types env).

(** [dict((c.natural_key(), c.model_class()) for c in ContentType.objects.all())],
    from the query that [from_pickle] makes itself. *)
Definition _TO_MODEL_MAP : gmap (string * string) (option ModelClass) :=
  foldl (fun m c => <[natural_key c := model_class c]> m) ∅
        (content_types_decode env).

Definition natural_key_value (nk : string * string) : Value :=
  VTuple [VStr (fst nk); VStr (snd nk)].

(** [_FROM_MODEL_MAP[key]], where [key] is [False] ([None] here) or a
    lower-cased class name. *)
Definition from_model_map_get (key : option string) : Value :=
  match key with
  | Some name =>
      match _FROM_MODEL_MAP !! name with
      | Some nk => natural_key_value nk
      | None => VStr ""
      end
  | None => VStr ""
  end.

(** The pair of strings a value is, if it is one. *)
Definition as_natural_key (k : Value) : option (string * string) :=
  match k with
  | VTuple [VStr a; VStr m] => Some (a, m)
  | _ => None
  end.

(** What [_TO_MODEL_MAP[k]] holds: a model class, [None], or the default
    empty string. *)
Inductive MapEntry :=
| EntryClass (cls : ModelClass)
| EntryNone
| EntryDefault.

(** [_TO_MODEL_MAP[k]]: an unhashable [k] raises [TypeError]. *)
Definition to_model_map_get (k : Value) : M MapEntry :=
  if hashable k then
    match as_natural_key k with
    | Some nk =>
        match _TO_MODEL_MAP !! nk with
        | Some (Some cls) => ret (EntryClass cls)
        | Some None => ret EntryNone
        | None => ret EntryDefault
        end
    | None => ret EntryDefault
    end
  else raise TypeError.

(** [entry.objects.get(id=ident)]: only a model class has [objects]. *)
Definition fetch (entry : MapEntry) (ident : Value) : M Value :=
  match entry with
  | EntryClass cls =>
      let! _ := emit (EvGet cls ident) in
      match objects_get env cls ident with
      | inr a => ret (VObj a)
      | inl e => raise e
      end
  | EntryNone | EntryDefault => raise AttributeError
  end.

(** *** The encoder *)

Definition sentinel : string := "__packed_dbobj__".

(** [_TO_DBOBJ = lambda o: (hasattr(o, "dbobj") and o.dbobj) or o] *)
Definition _TO_DBOBJ (o : Value) : M Value :=
  if hasattr o "dbobj" then
    let! d := getattr o "dbobj" in
    if truthy d then ret d else ret o
  else ret o.

(** [_TO_PACKED_DBOBJ = lambda natural_key, dbref:
      ('__packed_dbobj__', natural_key, dbref)] *)
Definition _TO_PACKED_DBOBJ (nk dbref : Value) : Value :=
  VTuple [VStr sentinel; nk; dbref].

(** The [else] branch of [iter_db2id] and the [return item] it falls
    through to. *)
Definition db2id_other (item : Value) : M Value :=
  let! item := _TO_DBOBJ item in
  let key :=
    if hasattr item "id" then Some (lower (class_name item)) else None in
  let nk := from_model_map_get key in
  if truthy nk then
    let! dbref := getattr item "id" in
    ret (_TO_PACKED_DBOBJ nk dbref)
  else ret item.

Fixpoint iter_db2id (item : Value) : M Value :=
  let dtype := type_of item in
  if type_in dtype [TBasestring; TInt; TFloat] then ret item
  else
    match item with
    | VTuple l =>
        let! vs := mapM iter_db2id l in ret (VTuple vs)
    | VDict kvs =>
        let! kvs' := mapM (fun kv => let '(key, val) := kv in
                                     let! v := iter_db2id val in ret (key, v)) kvs in
        ret (VDict kvs')
    | VList l | VSet l =>           (* hasattr(item, '__iter__') *)
        let! vs := mapM iter_db2id l in ret (VList vs)
    | _ => db2id_other item
    end.

(** [_DUMPS = lambda data: to_str(pickle.dumps(data, HIGHEST_PROTOCOL))];
    [to_str] leaves the byte string alone. *)
Definition _DUMPS (data : Value) : M Value :=
  match pickle_dumps env data with
  | inr s => ret (VStr s)
  | inl e => raise e
  end.

(** [v != False]: the built-in values that compare equal to [False] are
    those of [eq_False]; a live object answers for itself. *)
Definition ne_False (v : Value) : bool :=
  match v with
  | VObj a => obj_ne_False env a
  | _ => negb (eq_False v)
  end.

(** The debugging [print] in front of the call of [_DUMPS] is left out. *)
Definition to_pickle (data : Value) (do_pickle emptypickle : bool) : M Value :=
  let! data := iter_db2id data in
  if do_pickle &&
     negb (negb emptypickle && negb (truthy data) && ne_False data)
  then _DUMPS data
  else ret data.

(** *** The decoder *)

(** [_IS_PACKED_DBOBJ = lambda o:
      type(o) == tuple and len(o) == 3 and o[0] == '__packed_dbobj__'] *)
Definition _IS_PACKED_DBOBJ (o : Value) : bool :=
  PyType_eqb (type_of o) TTuple && Nat.eqb (py_len o) 3
  && eq_str (py_index o 0) sentinel.

(** [_TO_TYPECLASS = lambda o: (hasattr(o, 'typeclass') and o.typeclass) or o] *)
Definition _TO_TYPECLASS (o : Value) : M Value :=
  if hasattr o "typeclass" then
    let! t := getattr o "typeclass" in
    if truthy t then ret t else ret o
  else ret o.

(** The branch of [iter_id2db] taken by a packed triple. *)
Definition id2db_packed (item : Value) : M Value :=
  if truthy (py_index item 2) then
    let! entry := to_model_map_get (py_index item 1) in
    let! o := fetch entry (py_index item 2) in
    _TO_TYPECLASS o
  else ret VNone.

Fixpoint iter_id2db (item : Value) : M Value :=
  let dtype := type_of item in
  if type_in dtype [TBasestring; TInt; TFloat] then ret item
  else if _IS_PACKED_DBOBJ item then id2db_packed item
  else
    match item with
    | VTuple l =>
        let! vs := mapM iter_id2db l in ret (VTuple vs)
    | VDict kvs =>
        let! kvs' := mapM (fun kv => let '(key, val) := kv in
                                     let! v := iter_id2db val in ret (key, v)) kvs in
        ret (VDict kvs')
    | VList l | VSet l =>           (* hasattr(item, '__iter__') *)
        let! vs := mapM iter_id2db l in ret (VList vs)
    | _ => ret item
    end.

(** [_LOADS = lambda data: pickle.loads(to_str(data))] *)
Definition _LOADS (data : Value) : M Value :=
  match data with
  | VStr s =>
      match pickle_loads env s with
      | inr v => ret v
      | inl e => raise e
      end
  | _ => raise TypeError
  end.

(** The body of [from_pickle]; the [transaction.autocommit] decorator
    around it and the filling of the directory cache touch no entity. *)
Definition from_pickle (data : Value) (do_pickle : bool) : M Value :=
  let! data := (if do_pickle then _LOADS data else ret data) in
  let! _ := emit EvCommit in
  iter_id2db data.

End Pickling.

(** [from_pickle(to_pickle(v, do_pickle=False), do_pickle=False)] *)
Definition round_trip (env : Env) (v : Value) : M Value :=
  let! packed := to_pickle env v false true in
  from_pickle env packed false.

(** ** Classes of values *)

(** Built from scalars, tuples, lists and dict values only: no live
    object and no other iterable anywhere the walkers look. *)
Fixpoint plain (v : Value) : bool :=
  match v with
  | VNone | VBool _ | VInt _ | VLong _ | VFloat _ | VStr _ => true
  | VTuple l | VList l => forallb plain l
  | VDict kvs => forallb (fun kv => plain (snd kv)) kvs
  | VSet _ | VObj _ => false
  end.

(** No triple headed by the sentinel anywhere the decoder looks. *)
Fixpoint token_free (v : Value) : bool :=
  negb (_IS_PACKED_DBOBJ v) &&
  match v with
  | VTuple l | VList l | VSet l => forallb token_free l
  | VDict kvs => forallb (fun kv => token_free (snd kv)) kvs
  | _ => true
  end.

(** Neither tuple, dict nor iterable: what reaches the last branch. *)
Definition opaque (v : Value) : bool :=
  negb (type_in (type_of v) [TTuple; TDict; TList; TSet]).

(** The walk of the items of a mapping, as both walkers make it. *)
Definition walk_items (f : Value -> M Value) (kvs : list (Value * Value))
  : M (list (Value * Value)) :=
  mapM (fun kv => let '(key, val) := kv in
                  let! v := f val in ret (key, v)) kvs.

(** Two references denote the same entity when they unwrap to the same
    stored row. *)
Definition same_entity (env : Env) (x y : Value) : Prop :=
  exists d, outcome (_TO_DBOBJ env x) = inr d /\ outcome (_TO_DBOBJ env y) = inr d.

(** What reaches the [else] of [iter_db2id]. *)
Definition falls_through (v : Value) : bool :=
  negb (type_in (type_of v) [TBasestring; TInt; TFloat]) && opaque v.

(** No fetch by identity happens before the commit. *)
Fixpoint barrier_ok (t : list Event) : bool :=
  match t with
  | [] => true
  | EvCommit :: _ => true
  | EvGet _ _ :: _ => false
  | EvRead _ _ :: t' => barrier_ok t'
  end.

Definition reads (name : string) (ev : Event) : bool :=
  match ev with EvRead _ n => String.eqb n name | _ => false end.

(** ** A small world to run the functions in

    Object 1 is a stored [ObjectDB] row with identity 7 and object 2 the
    typeclass wrapped around it; object 3 is a stored row with identity 0;
    object 4 wraps object 5, and neither 5 nor 6 is an entity; object 7 is
    a zero of another numeric class (such as [0j]): falsy and equal to
    [False]. *)
Module Sample.

Definition attrs (a : addr) (name : string) : option Value :=
  match a, name with
  | 1, "id" => Some (VInt 7)
  | 1, "typeclass" => Some (VObj 2)
  | 2, "dbobj" => Some (VObj 1)
  | 2, "id" => Some (VInt 7)
  | 3, "id" => Some (VInt 0)
  | 4, "dbobj" => Some (VObj 5)
  | _, _ => None
  end.

Definition classes (a : addr) : string :=
  match a with
  | 1 | 3 => "ObjectDB"
  | 2 => "Character"
  | 4 => "Wrapper"
  | 7 => "complex"
  | _ => "Thing"
  end.

Definition rows : list ContentType :=
  [ {| app_label := "auth"; model := "user"; model_class := Some "User" |};
    {| app_label := "objects"; model := "objectdb";
       model_class := Some "ObjectDB" |} ].

Definition stored (cls : ModelClass) (ident : Value) : Exc + addr :=
  if String.eqb cls "ObjectDB" then
    match ident with
    | VInt 7 => inr 1
    | VInt 0 => inr 3
    | _ => inl DoesNotExist
    end
  else inl DoesNotExist.

Definition world : Env := {|
  obj_class := classes;
  obj_attr := attrs;
  obj_truthy := fun a => negb (Nat.eqb a 7);
  obj_ne_False := fun a => negb (Nat.eqb a 7);
  content_types := rows;
  content_types_decode := rows;
  objects_get := stored;
  pickle_dumps := fun _ => inr "<pickle>";
  pickle_loads := fun _ => inl (OtherError "not a pickle")
|}.

Definition token7 : Value :=
  VTuple [VStr sentinel; VTuple [VStr "objects"; VStr "objectdb"]; VInt 7].

End Sample.

(** ** More classes of values, for the walkers *)

(** What the encoder makes of a value that holds no live object: every
    other iterable becomes a list. *)
Fixpoint listify (v : Value) : Value :=
  match v with
  | VTuple l => VTuple (map listify l)
  | VList l | VSet l => VList (map listify l)
  | VDict kvs => VDict (map (fun kv => (fst kv, listify (snd kv))) kvs)
  | _ => v
  end.

(** No live object anywhere the walkers look. *)
Fixpoint object_free (v : Value) : bool :=
  match v with
  | VTuple l | VList l | VSet l => forallb object_free l
  | VDict kvs => forallb (fun kv => object_free (snd kv)) kvs
  | VObj _ => false
  | _ => true
  end.

(** A live object that is the outward-facing form of a row in storage:
    it unwraps to a row that has a truthy [id], the class of the row has a
    key, the key leads back to a model class under which the row is stored,
    and the row's outward-facing form is the object. *)
Definition stored_entity (env : Env) (a : addr) : Prop :=
  exists (d : addr) (nk : string * string) (i : Value) (cls : ModelClass),
    outcome (_TO_DBOBJ env (VObj a)) = inr (VObj d)
    /\ obj_attr env d "id" = Some i
    /\ _FROM_MODEL_MAP env !! lower (obj_class env d) = Some nk
    /\ truthy env i = true
    /\ _TO_MODEL_MAP env !! nk = Some (Some cls)
    /\ objects_get env cls i = inr d
    /\ outcome (_TO_TYPECLASS env (VObj d)) = inr (VObj a).

(** A nested value ready for storage: scalars, tuples that do not look
    like a packed triple, lists, mappings, and stored entities. *)
Fixpoint storable (env : Env) (v : Value) : Prop :=
  match v with
  | VTuple l =>
      _IS_PACKED_DBOBJ v = false
      /\ (fix all (l : list Value) : Prop :=
            match l with
            | [] => True
            | x :: xs => storable env x /\ all xs
            end) l
  | VList l =>
      (fix all (l : list Value) : Prop :=
         match l with
         | [] => True
         | x :: xs => storable env x /\ all xs
         end) l
  | VDict kvs =>
      (fix vals (l : list (Value * Value)) : Prop :=
         match l with
         | [] => True
         | kv :: xs => storable env (snd kv) /\ vals xs
         end) kvs
  | VSet _ => False
  | VObj a => stored_entity env a
  | _ => True
  end.

(** Packing and unpacking one node: the packed form decodes to the node
    and is a string exactly when the node is. *)
Definition restores (env : Env) (x p : Value) : Prop :=
  outcome (iter_db2id env x) = inr p
  /\ outcome (iter_id2db env p) = inr x
  /\ forall s, eq_str p s = eq_str x s.

(** [to_pickle] followed by [from_pickle], both with their flags. *)
Definition pickled_round_trip (env : Env) (v : Value) (emptypickle : bool)
  : M Value :=
  let! packed := to_pickle env v true emptypickle in
  from_pickle env packed true.

(** ** [is_iter] and [make_iter] *)

(** [is_iter]: [object.__getattribute__(iterable, '__iter__')] succeeds on
    tuples, lists, dicts and the other iterables; strings have no
    [__iter__]. *)
Definition is_iter (iterable : Value) : bool :=
  type_in (type_of iterable) [TTuple; TList; TDict; TSet].

(** [make_iter = not hasattr(obj, '__iter__') and [obj] or obj] *)
Definition make_iter (obj : Value) : Value :=
  if negb (is_iter obj) then VList [obj] else obj.

(** ** The sample world with a serialiser

    The objects, rows and directory of [Sample.world], with a toy
    serialiser that knows a few structures and refuses live objects. *)
Module Pickled.

Definition dumps (v : Value) : Exc + string :=
  match v with
  | VNone => inr "N."
  | VList [VInt 1; VStr "x"] => inr "(lI1\nS'x'\na."
  | VObj _ => inl (OtherError "PicklingError")
  | _ => inr "?"
  end.

Definition loads (s : string) : Exc + Value :=
  if String.eqb s "N." then inr VNone
  else if String.eqb s "(lI1\nS'x'\na." then inr (VList [VInt 1; VStr "x"])
  else inl (OtherError "UnpicklingError").

Definition world : Env := {|
  obj_class := Sample.classes;
  obj_attr := Sample.attrs;
  obj_truthy := fun a => negb (Nat.eqb a 7);
  obj_ne_False := fun a => negb (Nat.eqb a 7);
  content_types := Sample.rows;
  content_types_decode := Sample.rows;
  objects_get := Sample.stored;
  pickle_dumps := dumps;
  pickle_loads := loads
|}.

End Pickled.

(** * The text helpers of the module

    Texts are byte strings ([str]), on which [to_str] is the identity;
    [crop] is modelled on [unicode] texts as well, where [to_str] is the
    UTF-8 encoding. *)

(** Exceptions of the built-in operations the helpers use. *)
Inductive PyError :=
| IndexError
| ValueError
| UnboundLocalError
| UnicodeDecodeError.

(** [s[:n]] for [0 <= n] *)
Fixpoint take_str (n : nat) (s : string) : string :=
  match n, s with
  | S n', String c r => String c (take_str n' r)
  | _, _ => ""
  end.

(** [s[:e]]: a negative bound counts from the end, and bounds outside the
    string are clipped. *)
Definition slice_to (s : string) (e : Z) : string :=
  take_str (Z.to_nat (if (e <? 0)%Z then (e + Z.of_nat (String.length s))%Z
                      else e)) s.

(** [crop(text, width=78, suffix="[...]")] on byte strings *)
Definition crop (text : string) (width : Z) (suffix : string) : string :=
  let ltext := Z.of_nat (String.length text) in
  if (ltext <=? width)%Z then text
  else
    let lsuffix := Z.of_nat (String.length suffix) in
    slice_to text (width - lsuffix) +:+ suffix.

(** A text of Python 2: a byte string ([str]) or a [unicode] string, given
    by its code points, one list element each. *)
Inductive Text :=
| Str (s : string)
| Unicode (cs : list N).

(** [len(t)]: bytes of a [str], code points of a [unicode] *)
Definition text_len (t : Text) : nat :=
  match t with
  | Str s => String.length s
  | Unicode cs => length cs
  end.

(** [t[:n]] for [0 <= n] and [t[:e]] for any [e], as [slice_to] *)
Definition text_take (n : nat) (t : Text) : Text :=
  match t with
  | Str s => Str (take_str n s)
  | Unicode cs => Unicode (take n cs)
  end.

Definition text_slice_to (t : Text) (e : Z) : Text :=
  text_take (Z.to_nat (if (e <? 0)%Z then (e + Z.of_nat (text_len t))%Z
                       else e)) t.

(** [unicode.encode('utf-8')]: one to four bytes for each code point *)
Definition utf8_point (c : N) : string :=
  let byte (n : N) := ascii_of_N n in
  let cont (n : N) := byte (128 + n mod 64)%N in
  if (c <? 128)%N then String (byte c) ""
  else if (c <? 2048)%N then
    String (byte (192 + c / 64)%N) (String (cont c) "")
  else if (c <? 65536)%N then
    String (byte (224 + c / 4096)%N)
      (String (cont (c / 64)%N) (String (cont c) ""))
  else
    String (byte (240 + c / 262144)%N)
      (String (cont (c / 4096)%N)
         (String (cont (c / 64)%N) (String (cont c) ""))).

Fixpoint utf8_encode (cs : list N) : string :=
  match cs with
  | [] => ""
  | c :: r => utf8_point c +:+ utf8_encode r
  end.

(** [to_str(obj)] with its default arguments on a text: a [unicode] is
    encoded as UTF-8, which raises no [UnicodeEncodeError] in Python 2, and
    a [str] is returned as it is. *)
Definition to_str (obj : Text) : string :=
  match obj with
  | Str s => s
  | Unicode cs => utf8_encode cs
  end.

(** The implicit conversion of a [str] to [unicode], which decodes it as
    ASCII and raises [UnicodeDecodeError] at a byte above 127. *)
Definition ascii_decode (s : string) : PyError + list N :=
  let bytes := map N_of_ascii (list_ascii_of_string s) in
  if forallb (fun b => (b <? 128)%N) bytes then inr bytes
  else inl UnicodeDecodeError.

(** ["%s%s" % (a, b)]: a [str] when both are, and a [unicode] as soon as
    one of them is, the other one being converted. *)
Definition format_ss (a b : Text) : PyError + Text :=
  match a, b with
  | Str x, Str y => inr (Str (x +:+ y))
  | Unicode x, Unicode y => inr (Unicode (x ++ y))
  | Unicode x, Str y =>
      match ascii_decode y with
      | inl e => inl e
      | inr y' => inr (Unicode (x ++ y'))
      end
  | Str x, Unicode y =>
      match ascii_decode x with
      | inl e => inl e
      | inr x' => inr (Unicode (x' ++ y))
      end
  end.

(** [crop] on texts of either kind: the width is compared with the length
    of [to_str(text)], the slice is taken in [text] itself. *)
Definition crop_text (text : Text) (width : Z) (suffix : Text)
  : PyError + Text :=
  let ltext := Z.of_nat (String.length (to_str text)) in
  if (ltext <=? width)%Z then inr text
  else
    let lsuffix := Z.of_nat (text_len suffix) in
    format_ss (text_slice_to text (width - lsuffix)) suffix.

(** [s.replace(c, r)] for a one-character [c] *)
Fixpoint replace_char (c : ascii) (r : string) (s : string) : string :=
  match s with
  | EmptyString => EmptyString
  | String x s' =>
      if Ascii.eqb x c then r +:+ replace_char c r s'
      else String x (replace_char c r s')
  end.

(** [s[0]] and [s[-1]]: [None] stands for the [IndexError] of the empty
    string. *)
Definition first_char (s : string) : option ascii :=
  match s with
  | EmptyString => None
  | String c _ => Some c
  end.

Fixpoint last_char (s : string) : option ascii :=
  match s with
  | EmptyString => None
  | String c EmptyString => Some c
  | String _ r => last_char r
  end.

(** [wildcard_to_regexp(instring)] *)
Definition wildcard_to_regexp (instring : string) : PyError + string :=
  let regexp_string := "" in
  match first_char instring with
  | None => inl IndexError
  | Some c0 =>
      let regexp_string :=
        if negb (Ascii.eqb c0 "*") then regexp_string +:+ "^"
        else regexp_string in
      let regexp_string :=
        regexp_string
        +:+ replace_char "?" "(.{1})" (replace_char "*" "(.*)" instring) in
      match last_char instring with
      | None => inl IndexError
      | Some c1 =>
          let regexp_string :=
            if negb (Ascii.eqb c1 "*") then regexp_string +:+ "$"
            else regexp_string in
          inr regexp_string
      end
  end.

(** [s.startswith(p)] *)
Fixpoint startswith (s p : string) {struct p} : bool :=
  match p, s with
  | EmptyString, _ => true
  | String b p', String a s' => Ascii.eqb a b && startswith s' p'
  | String _ _, EmptyString => false
  end.

(** [s.lstrip(c)] for a one-character [c] *)
Fixpoint lstrip_char (c : ascii) (s : string) : string :=
  match s with
  | String x r => if Ascii.eqb x c then lstrip_char c r else s
  | EmptyString => EmptyString
  end.

(** [dbref(dbref, reqhash=True)].  [py_int] is the built-in [int] on
    strings, [None] standing for the exception it raises on a text that is
    not a number; the result [None] is Python's [None]. *)
Definition dbref (py_int : string -> option Z) (ref : Value) (reqhash : bool)
  : option Z :=
  if reqhash
     && negb (match ref with VStr s => startswith s "#" | _ => false end)
  then None
  else
    match ref with
    | VStr s =>
        match py_int (lstrip_char "#" s) with
        | Some n => if (n <? 1)%Z then None else Some n
        | None => None
        end
    | _ => None
    end.

(** A reader of unsigned decimal numbers, to run [dbref] with. *)
Fixpoint read_digits (acc : Z) (s : string) : option Z :=
  match s with
  | EmptyString => Some acc
  | String c r =>
      match Ascii.is_nat c with
      | Some d => read_digits (10 * acc + Z.of_nat d) r
      | None => None
      end
  end.

Definition read_number (s : string) : option Z :=
  match s with
  | EmptyString => None
  | _ => read_digits 0 s
  end.

(** [c in s] *)
Fixpoint has_char (c : ascii) (s : string) : bool :=
  match s with
  | EmptyString => false
  | String x r => Ascii.eqb x c || has_char c r
  end.

(** ** [time_format] *)

(** ['%i' % n] *)
Definition fmt_i (n : Z) : string := pretty n.

(** ['%02i' % n]: padded with a zero to two characters. *)
Definition fmt_02i (n : Z) : string :=
  let s := pretty n in
  if Nat.ltb (String.length s) 2 then "0" +:+ s else s.

(** [time_format(seconds, style=0)] on an integer number of seconds;
    [/] is the floor division of Python 2 integers, and a style other than
    0, 1, 2 or 3 leaves [retval] unbound. *)
Definition time_format (seconds style : Z) : PyError + string :=
  let seconds := if (seconds <? 0)%Z then 0%Z else seconds in
  let days := (seconds / 86400)%Z in
  let seconds := (seconds - days * 86400)%Z in
  let hours := (seconds / 3600)%Z in
  let seconds := (seconds - hours * 3600)%Z in
  let minutes := (seconds / 60)%Z in
  let seconds := (seconds - minutes * 60)%Z in
  if (style =? 0)%Z then
    inr (if (days >? 0)%Z
         then fmt_i days +:+ "d " +:+ fmt_02i hours +:+ ":" +:+ fmt_02i minutes
         else fmt_02i hours +:+ ":" +:+ fmt_02i minutes)
  else if (style =? 1)%Z then
    inr (if (days >? 0)%Z then fmt_i days +:+ "d"
         else if (hours >? 0)%Z then fmt_i hours +:+ "h"
         else if (minutes >? 0)%Z then fmt_i minutes +:+ "m"
         else fmt_i seconds +:+ "s")
  else if (style =? 2)%Z then
    let days_str :=
      if (days >? 0)%Z then
        if (days =? 1)%Z then fmt_i days +:+ " day, "
        else fmt_i days +:+ " days, "
      else "" in
    let hours_str :=
      if negb (days =? 0)%Z || (hours >? 0)%Z then
        if (hours =? 1)%Z then fmt_i hours +:+ " hour, "
        else fmt_i hours +:+ " hours, "
      else "" in
    let minutes_str :=
      if negb (hours =? 0)%Z || (minutes >? 0)%Z then
        if (minutes =? 1)%Z then fmt_i minutes +:+ " minute "
        else fmt_i minutes +:+ " minutes "
      else "" in
    inr (days_str +:+ hours_str +:+ minutes_str)
  else if (style =? 3)%Z then
    let days_str :=
      if (days >? 0)%Z then
        if (days =? 1)%Z then fmt_i days +:+ " day, "
        else fmt_i days +:+ " days, "
      else "" in
    let hours_str :=
      if negb (days =? 0)%Z || (hours >? 0)%Z then
        if (hours =? 1)%Z then fmt_i hours +:+ " hour, "
        else fmt_i hours +:+ " hours, "
      else "" in
    let minutes_str :=
      if negb (hours =? 0)%Z || (minutes >? 0)%Z then
        if (minutes =? 1)%Z then fmt_i minutes +:+ " minute "
        else fmt_i minutes +:+ " minutes "
      else "" in
    let seconds_str :=
      if negb (minutes =? 0)%Z || (seconds >? 0)%Z then
        if (seconds =? 1)%Z then fmt_i seconds +:+ " second "
        else fmt_i seconds +:+ " seconds "
      else "" in
    inr (days_str +:+ hours_str +:+ minutes_str +:+ seconds_str)
  else inl UnboundLocalError.

(** ** [string_partial_matching] *)

(** [enumerate(l)] *)
Definition enumerate {A} (l : list A) : list (nat * A) :=
  zip (seq 0 (length l)) l.

(** [min(l)] of the non-empty list [m :: ms] *)
Definition list_min (m : nat) (ms : list nat) : nat := foldr Nat.min m ms.

(** The list comprehension
    [[last_index + alt_num for alt_num, alt_word
      in enumerate(alt_words[last_index:]) if alt_word.startswith(inp_word)]] *)
Definition submatch (alt_words : list string) (last_index : nat)
    (inp_word : string) : list nat :=
  map (fun p => last_index + fst p)
      (List.filter (fun p => startswith (snd p) inp_word)
                   (enumerate (drop last_index alt_words))).

(** The loop over the words of the input, with its two variables; the
    [break] leaves the loop with a score of 0. *)
Fixpoint score_words (alt_words inp_words : list string)
    (last_index score : nat) : nat :=
  match inp_words with
  | [] => score
  | inp_word :: rest =>
      match submatch alt_words last_index inp_word with
      | [] => 0
      | m :: ms => score_words alt_words rest (list_min m ms + 1) (score + 1)
      end
  end.

(** [string_partial_matching(alternatives, inp, ret_index=True)];
    [matches] is the [defaultdict(list)] from scores to matches, and
    [str.split()] is [String.words]. *)
Definition string_partial_matching (alternatives : list string) (inp : string)
    (ret_index : bool) : list Value :=
  if Nat.eqb (length alternatives) 0 || String.eqb inp "" then []
  else
    let inp_words := String.words (lower inp) in
    let matches :=
      foldl (fun (matches : gmap nat (list Value)) p =>
               let '(altindex, alt) := p in
               let alt_words := String.words (lower alt) in
               let score := score_words alt_words inp_words 0 0 in
               if negb (Nat.eqb score 0) then
                 <[score := default [] (matches !! score)
                            ++ [if ret_index then VInt (Z.of_nat altindex)
                                else VStr alt]]> matches
               else matches)
            ∅ (enumerate alternatives) in
    match map fst (map_to_list matches) with
    | [] => []
    | k :: ks => default [] (matches !! foldr Nat.max k ks)
    end.

(** The words [ws] occur in this order in [l], each as the beginning of a
    word of its own. *)
Fixpoint embeds (ws l : list string) : bool :=
  match ws, l with
  | [], _ => true
  | _ :: _, [] => false
  | w :: ws', a :: l' => (startswith a w && embeds ws' l') || embeds ws l'
  end.

(** The table of matches when every match has the score [n]. *)
Definition one_score (n : nat) (items : list Value) : gmap nat (list Value) :=
  match items with
  | [] => ∅
  | _ => {[n := items]}
  end.

(** What [string_partial_matching] puts in its result for the alternative
    [alt] at position [altindex]. *)
Definition match_item (ret_index : bool) (p : nat * string) : Value :=
  if ret_index then VInt (Z.of_nat (fst p)) else VStr (snd p).

(** ** [format_table] *)

(** [" " * n] *)
Fixpoint spaces (n : nat) : string :=
  match n with
  | 0 => EmptyString
  | S n' => String " " (spaces n')
  end.

(** [s.ljust(width)] *)
Definition ljust (s : string) (width : nat) : string :=
  s +:+ spaces (width - String.length s).

(** A list comprehension whose body may raise: left to right, the first
    exception ends it. *)
Fixpoint mapE {A B} (f : A -> PyError + B) (l : list A) : PyError + list B :=
  match l with
  | [] => inr []
  | x :: xs =>
      match f x with
      | inl e => inl e
      | inr y =>
          match mapE f xs with
          | inl e => inl e
          | inr ys => inr (y :: ys)
          end
      end
  end.

(** [max([len(str(val)) for val in col])]: [max] of an empty list raises
    [ValueError]. *)
Definition max_len (col : list string) : PyError + nat :=
  match map String.length col with
  | [] => inl ValueError
  | n :: ns => inr (foldr Nat.max n ns)
  end.

(** [format_table(table, extra_space=1)] on a table of columns of
    strings. *)
Definition format_table (table : list (list string)) (extra_space : Z)
  : PyError + list (list string) :=
  match table with
  | [] => inr [[]]
  | first :: _ =>
      match mapE max_len table with
      | inl e => inl e
      | inr max_widths =>
          mapE (fun irow =>
                  mapE (fun p : nat * list string =>
                          let '(icol, col) := p in
                          match col !! irow with
                          | Some val =>
                              inr (ljust val (nth icol max_widths 0)
                                   +:+ spaces (Z.to_nat extra_space))
                          | None => inl IndexError
                          end)
                       (enumerate table))
               (seq 0 (length first))
      end
  end.

(** ** [validate_email_address] *)

(** [a, b = s.rsplit(sep, 1)]: the text before and after the last [sep];
    [None] stands for the [ValueError] of the unpacking when [s] has no
    [sep]. *)
Fixpoint rsplit1 (sep : ascii) (s : string) : option (string * string) :=
  match s with
  | EmptyString => None
  | String c r =>
      match rsplit1 sep r with
      | Some (a, b) => Some (String c a, b)
      | None => if Ascii.eqb c sep then Some (EmptyString, r) else None
      end
  end.

(** [for i in chars: s = s.replace(i, "")] *)
Fixpoint remove_chars (chars : string) (s : string) : string :=
  match chars with
  | EmptyString => s
  | String i chars' => remove_chars chars' (replace_char i "" s)
  end.

Definition is_alnum_char (c : ascii) : bool :=
  let n := nat_of_ascii c in
  (Nat.leb 48 n && Nat.leb n 57) || (Nat.leb 65 n && Nat.leb n 90)
  || (Nat.leb 97 n && Nat.leb n 122).

Fixpoint all_alnum (s : string) : bool :=
  match s with
  | EmptyString => true
  | String c r => is_alnum_char c && all_alnum r
  end.

(** [s.isalnum()]: not empty, letters and digits only. *)
Definition isalnum (s : string) : bool :=
  match s with
  | EmptyString => false
  | _ => all_alnum s
  end.

Definition domains : list string :=
  ["aero"; "asia"; "biz"; "cat"; "com"; "coop"; "edu"; "gov"; "info"; "int";
   "jobs"; "mil"; "mobi"; "museum"; "name"; "net"; "org"; "pro"; "tel";
   "travel"].

(** [validate_email_address(emailaddress)] *)
Definition validate_email_address (emailaddress : string) : bool :=
  if Nat.ltb (String.length emailaddress) 7 then false
  else
    match rsplit1 "@" emailaddress with
    | None => false
    | Some (localpart, domainname) =>
        match rsplit1 "." domainname with
        | None => false
        | Some (host, toplevel) =>
            if negb (Nat.eqb (String.length toplevel) 2)
               && negb (existsb (String.eqb toplevel) domains)
            then false
            else
              let localpart := remove_chars "-_.%+." localpart in
              let host := remove_chars "-_." host in
              if isalnum localpart && isalnum host then true else false
        end
    end.

(** ** Induction on nested values *)

Section ValueInduction.

Variable P : Value -> Prop.
Hypothesis HNone : P VNone.
Hypothesis HBool : forall b, P (VBool b).
Hypothesis HInt : forall n, P (VInt n).
Hypothesis HLong : forall n, P (VLong n).
Hypothesis HFloat : forall x, P (VFloat x).
Hypothesis HStr : forall s, P (VStr s).
Hypothesis HTuple : forall l, Forall P l -> P (VTuple l).
Hypothesis HList : forall l, Forall P l -> P (VList l).
Hypothesis HDict : forall kvs, Forall (fun kv => P (snd kv)) kvs -> P (VDict kvs).
Hypothesis HSet : forall l, Forall P l -> P (VSet l).
Hypothesis HObj : forall a, P (VObj a).

Fixpoint Value_nested_ind (v : Value) : P v :=
  let all := fix all (l : list Value) : Forall P l :=
    match l with
    | [] => @List.Forall_nil _ P
    | x :: xs => @List.Forall_cons _ P x xs (Value_nested_ind x) (all xs)
    end in
  match v with
  | VNone => HNone
  | VBool b => HBool b
  | VInt n => HInt n
  | VLong n => HLong n
  | VFloat x => HFloat x
  | VStr s => HStr s
  | VTuple l => HTuple l (all l)
  | VList l => HList l (all l)
  | VDict kvs =>
      HDict kvs
        ((fix vals (l : list (Value * Value)) : Forall (fun kv => P (snd kv)) l :=
            match l with
            | [] => @List.Forall_nil _ _
            | (k, x) :: xs =>
                @List.Forall_cons _ (fun kv => P (snd kv)) (k, x) xs
                                  (Value_nested_ind x) (vals xs)
            end) kvs)
  | VSet l => HSet l (all l)
  | VObj a => HObj a
  end.

End ValueInduction.

(** ** Runs in the sample world *)

Example encode_typeclass :
  outcome (iter_db2id Sample.world (VObj 2)) = inr Sample.token7.
Proof. vm_compute. reflexivity. Qed.

Example decode_typeclass :
  iter_id2db Sample.world Sample.token7
  = ([EvGet "ObjectDB" (VInt 7); EvRead (VObj 1) "typeclass"], inr (VObj 2)).
Proof. vm_compute. reflexivity. Qed.

Example nested_shape :
  outcome (round_trip Sample.world
    (VDict [(VStr "a", VList [VInt 1; VTuple [VObj 2; VStr "x"];
                              VDict [(VInt 2, VObj 2)]])]))
  = inr (VDict [(VStr "a", VList [VInt 1; VTuple [VObj 2; VStr "x"];
                                  VDict [(VInt 2, VObj 2)]])]).
Proof. vm_compute. reflexivity. Qed.

Example set_becomes_list :
  outcome (iter_db2id Sample.world (VSet [VInt 1; VInt 2])) = inr (VList [VInt 1; VInt 2]).
Proof. vm_compute. reflexivity. Qed.

(** ** Laws of the effect monad *)

Lemma bind_ret_l {A B} (a : A) (f : A -> M B) : bind (ret a) f = f a.
Proof. unfold bind, ret. destruct (f a) as [t r]. reflexivity. Qed.

Lemma bind_raise {A B} (e : Exc) (f : A -> M B) : bind (raise e) f = raise e.
Proof. reflexivity. Qed.

Lemma bind_value {A B} (t : list Event) (a : A) (f : A -> M B) :
  bind (t, inr a) f = (t ++ trace (f a), outcome (f a)).
Proof. unfold bind, trace, outcome. destruct (f a). reflexivity. Qed.

Lemma bind_error {A B} (t : list Event) (e : Exc) (f : A -> M B) :
  bind (t, inl e) f = (t, inl e).
Proof. reflexivity. Qed.

Lemma mapM_cons {A B} (f : A -> M B) x xs :
  mapM f (x :: xs) = let! y := f x in let! ys := mapM f xs in ret (y :: ys).
Proof. reflexivity. Qed.

(** A walk whose steps all hand their argument back, silently, does so as
    a whole. *)
Lemma mapM_id {A} (f : A -> M A) (l : list A) :
  Forall (fun x => f x = ret x) l -> mapM f l = ret l.
Proof.
  induction 1 as [| x xs Hx _ IH]; [reflexivity |].
  rewrite mapM_cons, Hx, bind_ret_l, IH, bind_ret_l. reflexivity.
Qed.

(** The items of a rebuilt list stand one for one for the items walked. *)
Lemma mapM_length {A B} (f : A -> M B) (l : list A) (r : list B) :
  outcome (mapM f l) = inr r -> length r = length l.
Proof.
  revert r. induction l as [| x xs IH]; intros r.
  - cbn. intros [= <-]. reflexivity.
  - rewrite mapM_cons. destruct (f x) as [t [e | y]]; [discriminate |].
    rewrite bind_value. cbn [outcome snd].
    destruct (mapM f xs) as [t' [e | ys]]; [discriminate |].
    rewrite bind_value. cbn. intros [= <-]. cbn. f_equal. apply IH. reflexivity.
Qed.

(** ** Equations of the two walkers *)

Section Walkers.

Variable env : Env.

Lemma iter_db2id_tuple l :
  iter_db2id env (VTuple l)
  = let! vs := mapM (iter_db2id env) l in ret (VTuple vs).
Proof. reflexivity. Qed.

Lemma iter_db2id_list l :
  iter_db2id env (VList l)
  = let! vs := mapM (iter_db2id env) l in ret (VList vs).
Proof. reflexivity. Qed.

Lemma iter_db2id_dict kvs :
  iter_db2id env (VDict kvs)
  = let! kvs' := walk_items (iter_db2id env) kvs in ret (VDict kvs').
Proof. reflexivity. Qed.

Lemma iter_db2id_opaque v :
  opaque v = true ->
  iter_db2id env v
  = if type_in (type_of v) [TBasestring; TInt; TFloat] then ret v
    else db2id_other env v.
Proof. destruct v; try discriminate; reflexivity. Qed.

Lemma iter_id2db_tuple l :
  iter_id2db env (VTuple l)
  = if _IS_PACKED_DBOBJ (VTuple l) then id2db_packed env (VTuple l)
    else let! vs := mapM (iter_id2db env) l in ret (VTuple vs).
Proof. reflexivity. Qed.

Lemma iter_id2db_list l :
  iter_id2db env (VList l)
  = let! vs := mapM (iter_id2db env) l in ret (VList vs).
Proof. reflexivity. Qed.

Lemma iter_id2db_dict kvs :
  iter_id2db env (VDict kvs)
  = let! kvs' := walk_items (iter_id2db env) kvs in ret (VDict kvs').
Proof. reflexivity. Qed.

Lemma iter_id2db_opaque v :
  opaque v = true -> iter_id2db env v = ret v.
Proof. destruct v; try discriminate; reflexivity. Qed.

Lemma walk_items_id (f : Value -> M Value) kvs :
  Forall (fun kv => f (snd kv) = ret (snd kv)) kvs ->
  walk_items f kvs = ret kvs.
Proof.
  intros H. apply mapM_id.
  eapply Forall_impl; [exact H |].
  intros [k v] Hv. cbn in *. rewrite Hv, bind_ret_l. reflexivity.
Qed.

(** Scalars and other built-in values without attributes come back from
    the encoder's last branch as they are. *)
Lemma db2id_other_no_attrs v :
  (forall a, v <> VObj a) -> db2id_other env v = ret v.
Proof. intros H. destruct v; try reflexivity. destruct (H a eq_refl). Qed.

Lemma iter_db2id_plain v : plain v = true -> iter_db2id env v = ret v.
Proof.
  induction v using Value_nested_ind; intros Hp; try reflexivity;
    try discriminate.
  - rewrite iter_db2id_tuple, mapM_id, bind_ret_l; [reflexivity |].
    cbn in Hp. rewrite forallb_forall in Hp. rewrite Forall_forall in *.
    intros x Hx. apply H; [exact Hx |]. apply Hp. apply list_elem_of_In, Hx.
  - rewrite iter_db2id_list, mapM_id, bind_ret_l; [reflexivity |].
    cbn in Hp. rewrite forallb_forall in Hp. rewrite Forall_forall in *.
    intros x Hx. apply H; [exact Hx |]. apply Hp. apply list_elem_of_In, Hx.
  - rewrite iter_db2id_dict, walk_items_id, bind_ret_l; [reflexivity |].
    cbn in Hp. rewrite forallb_forall in Hp. rewrite Forall_forall in *.
    intros x Hx. apply H; [exact Hx |]. apply Hp. apply list_elem_of_In, Hx.
Qed.

Lemma iter_id2db_plain v :
  plain v = true -> token_free v = true -> iter_id2db env v = ret v.
Proof.
  induction v using Value_nested_ind; intros Hp Hf; try reflexivity;
    try discriminate.
  - cbn [token_free] in Hf. apply andb_prop in Hf as [Hn Hf].
    apply negb_true_iff in Hn.
    rewrite iter_id2db_tuple, Hn, mapM_id, bind_ret_l; [reflexivity |].
    cbn in Hp. rewrite forallb_forall in Hp, Hf. rewrite Forall_forall in *.
    intros x Hx. pose proof (proj1 (list_elem_of_In _ _) Hx) as Hin.
    apply H; [exact Hx | apply Hp, Hin | apply Hf, Hin].
  - cbn [token_free] in Hf. apply andb_prop in Hf as [_ Hf].
    rewrite iter_id2db_list, mapM_id, bind_ret_l; [reflexivity |].
    cbn in Hp. rewrite forallb_forall in Hp, Hf. rewrite Forall_forall in *.
    intros x Hx. pose proof (proj1 (list_elem_of_In _ _) Hx) as Hin.
    apply H; [exact Hx | apply Hp, Hin | apply Hf, Hin].
  - cbn [token_free] in Hf. apply andb_prop in Hf as [_ Hf].
    rewrite iter_id2db_dict, walk_items_id, bind_ret_l; [reflexivity |].
    cbn in Hp. rewrite forallb_forall in Hp, Hf. rewrite Forall_forall in *.
    intros x Hx. pose proof (proj1 (list_elem_of_In _ _) Hx) as Hin.
    apply H; [exact Hx | apply (Hp _ Hin) | apply (Hf _ Hin)].
Qed.

End Walkers.

(** ** Round trip of plain data *)




(** ** References *)

Section References.

Variable env : Env.

(** Reading an attribute that is there. *)
Lemma getattr_some a name x :
  obj_attr env a name = Some x ->
  getattr env (VObj a) name = ([EvRead (VObj a) name], inr x).
Proof. intros H. cbn [getattr]. rewrite H. reflexivity. Qed.

Lemma hasattr_some a name x :
  obj_attr env a name = Some x -> hasattr env (VObj a) name = true.
Proof. intros H. cbn. apply bool_decide_eq_true. eauto. Qed.

Lemma _TO_DBOBJ_total o : exists d, outcome (_TO_DBOBJ env o) = inr d.
Proof.
  unfold _TO_DBOBJ. destruct (hasattr env o "dbobj") eqn:Hh; [| by exists o].
  destruct o; try discriminate. cbn in Hh. apply bool_decide_eq_true in Hh.
  destruct Hh as [d Hd]. rewrite (getattr_some _ _ _ Hd), bind_value.
  cbn [outcome snd]. destruct (truthy env d); eauto.
Qed.

Lemma _TO_TYPECLASS_total o : exists t, outcome (_TO_TYPECLASS env o) = inr t.
Proof.
  unfold _TO_TYPECLASS. destruct (hasattr env o "typeclass") eqn:Hh; [| by exists o].
  destruct o; try discriminate. cbn in Hh. apply bool_decide_eq_true in Hh.
  destruct Hh as [d Hd]. rewrite (getattr_some _ _ _ Hd), bind_value.
  cbn [outcome snd]. destruct (truthy env d); eauto.
Qed.

Lemma outcome_bind {A B} (m : M A) (f : A -> M B) a :
  outcome m = inr a -> outcome (bind m f) = outcome (f a).
Proof.
  destruct m as [t r]. cbn [outcome snd]. intros ->. rewrite bind_value.
  reflexivity.
Qed.

Lemma outcome_bind_error {A B} (m : M A) (f : A -> M B) e :
  outcome m = inl e -> outcome (bind m f) = inl e.
Proof. destruct m as [t r]. cbn. intros ->. reflexivity. Qed.

(** The encoder on an entity: the row reached by unwrapping has an [id]
    and its lower-cased class name has a key. *)
Lemma db2id_other_entity e d nk i :
  outcome (_TO_DBOBJ env e) = inr (VObj d) ->
  obj_attr env d "id" = Some i ->
  _FROM_MODEL_MAP env !! lower (obj_class env d) = Some nk ->
  outcome (db2id_other env e)
  = inr (_TO_PACKED_DBOBJ (natural_key_value nk) i).
Proof.
  intros Hd Hi Hk. unfold db2id_other.
  rewrite (outcome_bind _ _ _ Hd).
  rewrite (hasattr_some _ _ _ Hi). cbn [class_name from_model_map_get].
  rewrite Hk. cbn [natural_key_value truthy length Nat.eqb negb].
  rewrite (getattr_some _ _ _ Hi), bind_value. reflexivity.
Qed.

(** The decoder on a packed triple whose identity is truthy. *)
Lemma id2db_packed_truthy k i :
  truthy env i = true ->
  iter_id2db env (_TO_PACKED_DBOBJ k i)
  = let! entry := to_model_map_get env k in
    let! o := fetch env entry i in
    _TO_TYPECLASS env o.
Proof.
  intros Hi. unfold _TO_PACKED_DBOBJ. rewrite iter_id2db_tuple.
  cbn [_IS_PACKED_DBOBJ type_of PyType_eqb py_len length Nat.eqb py_index nth
       eq_str andb].
  replace (String.eqb sentinel sentinel) with true by reflexivity.
  unfold id2db_packed. cbn [py_index nth]. rewrite Hi. reflexivity.
Qed.

Lemma id2db_packed_falsy k i :
  truthy env i = false ->
  iter_id2db env (_TO_PACKED_DBOBJ k i) = ([], inr VNone).
Proof.
  intros Hi. unfold _TO_PACKED_DBOBJ. rewrite iter_id2db_tuple.
  cbn [_IS_PACKED_DBOBJ type_of PyType_eqb py_len length Nat.eqb py_index nth
       eq_str andb].
  replace (String.eqb sentinel sentinel) with true by reflexivity.
  unfold id2db_packed. cbn [py_index nth]. rewrite Hi. reflexivity.
Qed.

Lemma to_model_map_get_key nk cls :
  _TO_MODEL_MAP env !! nk = Some (Some cls) ->
  to_model_map_get env (natural_key_value nk) = ret (EntryClass cls).
Proof.
  intros H. destruct nk as [a m]. unfold to_model_map_get. cbn. rewrite H.
  reflexivity.
Qed.

End References.

(** C2, as amended: let [e] be an entity whose stored row [d] (what
    [_TO_DBOBJ] unwraps it to) has identity [i], the class of [d] having a key
    in the directory.  The encoder replaces [e] by
    [(sentinel, key, i)].  When [i] is truthy and the row is still in
    storage under the class the directory resolves the key to, the decoder
    answers the outward-facing form of that row: the same entity as [e], and
    [e] itself when [e] is that outward-facing form. *)
Theorem reference_round_trip (env : Env) (e : Value) (d : addr)
    (nk : string * string) (i : Value) (cls : ModelClass) :
  outcome (_TO_DBOBJ env e) = inr (VObj d) ->
  obj_attr env d "id" = Some i ->
  _FROM_MODEL_MAP env !! lower (obj_class env d) = Some nk ->
  truthy env i = true ->
  _TO_MODEL_MAP env !! nk = Some (Some cls) ->
  objects_get env cls i = inr d ->
  (forall t, outcome (_TO_TYPECLASS env (VObj d)) = inr t ->
             outcome (_TO_DBOBJ env t) = inr (VObj d)) ->
  outcome (iter_db2id env e) = inr (VTuple [VStr sentinel; natural_key_value nk; i])
  /\ exists r,
       outcome (iter_id2db env (VTuple [VStr sentinel; natural_key_value nk; i]))
       = inr r
       /\ same_entity env r e
       /\ (outcome (_TO_TYPECLASS env (VObj d)) = inr e -> r = e).
Proof.
  intros Hd Hi Hk Ht Hm Hs Hw. split.
  - destruct e; try discriminate Hd.
    change (iter_db2id env (VObj a)) with (db2id_other env (VObj a)).
    apply (db2id_other_entity env _ _ _ _ Hd Hi Hk).
  - destruct (_TO_TYPECLASS_total env (VObj d)) as [r Hr]. exists r.
    change (VTuple [VStr sentinel; natural_key_value nk; i])
      with (_TO_PACKED_DBOBJ (natural_key_value nk) i).
    rewrite (id2db_packed_truthy env _ _ Ht).
    rewrite (to_model_map_get_key env _ _ Hm), bind_ret_l.
    cbn [fetch]. rewrite Hs.
    assert (Hf : outcome (let! _ := emit (EvGet cls i) in ret (VObj d))
                 = inr (VObj d)) by reflexivity.
    rewrite (outcome_bind _ _ _ Hf). repeat split.
    + exact Hr.
    + exists (VObj d). split; [apply Hw, Hr | exact Hd].
    + intros He. congruence.
Qed.

Lemma reference_round_trip_witness :
  outcome (iter_db2id Sample.world (VObj 2)) = inr Sample.token7
  /\ exists r,
       outcome (iter_id2db Sample.world Sample.token7) = inr r
       /\ same_entity Sample.world r (VObj 2)
       /\ (outcome (_TO_TYPECLASS Sample.world (VObj 1)) = inr (VObj 2)
           -> r = VObj 2).
Proof.
  apply (reference_round_trip Sample.world (VObj 2) 1 ("objects", "objectdb")
           (VInt 7) "ObjectDB"); try reflexivity.
  intros t Ht. vm_compute in Ht. assert (t = VObj 2) as -> by congruence.
  reflexivity.
Defined.

(** C2 as stated fails for an identity that is falsy: the row with identity
    0 is in storage and its type has a key, the encoder packs it, and the
    decoder answers [None] without looking it up. *)
Lemma reference_round_trip_zero_identity :
  outcome (iter_db2id Sample.world (VObj 3))
  = inr (VTuple [VStr sentinel; VTuple [VStr "objects"; VStr "objectdb"]; VInt 0])
  /\ objects_get Sample.world "ObjectDB" (VInt 0) = inr 3
  /\ iter_id2db Sample.world
       (VTuple [VStr sentinel; VTuple [VStr "objects"; VStr "objectdb"]; VInt 0])
     = ([], inr VNone)
  /\ ~ same_entity Sample.world VNone (VObj 3).
Proof.
  repeat split. intros [d [H1 H2]]. vm_compute in H1, H2. congruence.
Qed.

(** An exception raised while an item is walked ends the walk of the
    whole sequence: nothing catches it. *)
Lemma mapM_first_error {A B} (f : A -> M B) (pre : list A) (x : A)
    (post : list A) (e : Exc) :
  Forall (fun y => exists z, outcome (f y) = inr z) pre ->
  outcome (f x) = inl e ->
  outcome (mapM f (pre ++ x :: post)) = inl e.
Proof.
  intros Hpre Hx. induction Hpre as [| y ys [z Hz] _ IH].
  - cbn [app]. rewrite mapM_cons. apply outcome_bind_error, Hx.
  - cbn [app]. rewrite mapM_cons, (outcome_bind _ _ _ Hz).
    apply outcome_bind_error, IH.
Qed.

Lemma list_error_propagates (env : Env) (pre : list Value) (x : Value)
    (post : list Value) (e : Exc) :
  Forall (fun y => exists z, outcome (iter_id2db env y) = inr z) pre ->
  outcome (iter_id2db env x) = inl e ->
  outcome (iter_id2db env (VList (pre ++ x :: post))) = inl e.
Proof.
  intros Hpre Hx. rewrite iter_id2db_list.
  apply outcome_bind_error, mapM_first_error; assumption.
Qed.

(** C3: a packed triple with a truthy identity whose key resolves to a
    model class, while storage no longer has a row with that identity: the
    lookup is made, after the commit, and its [DoesNotExist] is what the
    caller gets; neither [None] nor the triple itself is returned. *)
Theorem stale_reference_raises (env : Env) (k i : Value) (cls : ModelClass) :
  truthy env i = true ->
  to_model_map_get env k = ret (EntryClass cls) ->
  objects_get env cls i = inl DoesNotExist ->
  iter_id2db env (VTuple [VStr sentinel; k; i])
  = ([EvGet cls i], inl DoesNotExist)
  /\ from_pickle env (VTuple [VStr sentinel; k; i]) false
     = ([EvCommit; EvGet cls i], inl DoesNotExist)
  /\ outcome (from_pickle env (VTuple [VStr sentinel; k; i]) false) <> inr VNone
  /\ outcome (from_pickle env (VTuple [VStr sentinel; k; i]) false)
     <> inr (VTuple [VStr sentinel; k; i]).
Proof.
  intros Ht Hk Hs.
  assert (Hit : iter_id2db env (VTuple [VStr sentinel; k; i])
                = ([EvGet cls i], inl DoesNotExist)).
  { change (VTuple [VStr sentinel; k; i]) with (_TO_PACKED_DBOBJ k i).
    rewrite (id2db_packed_truthy env _ _ Ht), Hk, bind_ret_l.
    cbn [fetch]. rewrite Hs. reflexivity. }
  assert (Hfp : from_pickle env (VTuple [VStr sentinel; k; i]) false
                = ([EvCommit; EvGet cls i], inl DoesNotExist)).
  { unfold from_pickle. rewrite bind_ret_l, Hit. reflexivity. }
  rewrite Hfp. split; [exact Hit |]. split; [reflexivity |].
  split; discriminate.
Qed.

Lemma stale_reference_raises_witness :
  iter_id2db Sample.world
    (VTuple [VStr sentinel; VTuple [VStr "objects"; VStr "objectdb"]; VInt 8])
  = ([EvGet "ObjectDB" (VInt 8)], inl DoesNotExist)
  /\ from_pickle Sample.world
       (VTuple [VStr sentinel; VTuple [VStr "objects"; VStr "objectdb"]; VInt 8])
       false
     = ([EvCommit; EvGet "ObjectDB" (VInt 8)], inl DoesNotExist)
  /\ outcome (from_pickle Sample.world
       (VTuple [VStr sentinel; VTuple [VStr "objects"; VStr "objectdb"]; VInt 8])
       false) <> inr VNone
  /\ outcome (from_pickle Sample.world
       (VTuple [VStr sentinel; VTuple [VStr "objects"; VStr "objectdb"]; VInt 8])
       false)
     <> inr (VTuple [VStr sentinel; VTuple [VStr "objects"; VStr "objectdb"];
                     VInt 8]).
Proof. apply stale_reference_raises; reflexivity. Defined.

(** ** Packed triples in the decoder *)

(** The decoder's map holds, for a natural key, the model class of the
    last row of its query that has this key. *)
Lemma to_model_map_last (env : Env) (nk : string * string) :
  _TO_MODEL_MAP env !! nk
  = model_class
      <$> last (List.filter (fun c => bool_decide (natural_key c = nk))
                            (content_types_decode env)).
Proof.
  unfold _TO_MODEL_MAP.
  induction (content_types_decode env) as [| c rows IH] using rev_ind.
  - cbn. apply lookup_empty.
  - rewrite foldl_snoc, lookup_insert, List.filter_app. cbn [List.filter].
    case_decide as Hk.
    + rewrite bool_decide_eq_true_2 by exact Hk. rewrite last_snoc.
      reflexivity.
    + rewrite bool_decide_eq_false_2 by exact Hk. rewrite app_nil_r.
      exact IH.
Qed.

(** C5: a tuple of three items whose first is the sentinel string passes
    the packed-reference test, which the decoder makes before its generic
    tuple branch, and is resolved or nullified, never rebuilt item by item.
    With a falsy identity the result is [None] and nothing happens.
    Otherwise the key is looked up in the directory: an unhashable key
    raises [TypeError], a key that is not a pair of strings or has no model
    class there raises [AttributeError], both before any fetch; with the
    model class [cls] of the last ContentType row carrying the key, the one
    fetch [cls.objects.get(id=identity)] is made, its exception is the
    outcome if it raises, and the row it returns is answered in its
    outward-facing form: its truthy [typeclass] attribute if it has one,
    the row itself if not. *)
Theorem packed_triple_is_reference (env : Env) (k i : Value) :
  _IS_PACKED_DBOBJ (VTuple [VStr sentinel; k; i]) = true
  /\ iter_id2db env (VTuple [VStr sentinel; k; i])
     = (if truthy env i then
          if hashable k then
            match k with
            | VTuple [VStr app; VStr mdl] =>
                match _TO_MODEL_MAP env !! (app, mdl) with
                | Some (Some cls) =>
                    match objects_get env cls i with
                    | inl e => ([EvGet cls i], inl e)
                    | inr a =>
                        match obj_attr env a "typeclass" with
                        | Some t =>
                            ([EvGet cls i; EvRead (VObj a) "typeclass"],
                             inr (if truthy env t then t else VObj a))
                        | None => ([EvGet cls i], inr (VObj a))
                        end
                    end
                | _ => ([], inl AttributeError)
                end
            | _ => ([], inl AttributeError)
            end
          else ([], inl TypeError)
        else ([], inr VNone))
  /\ (forall nk,
        _TO_MODEL_MAP env !! nk
        = model_class
            <$> last (List.filter (fun c => bool_decide (natural_key c = nk))
                                  (content_types_decode env))).
Proof.
  split; [reflexivity |]. split; [| apply to_model_map_last].
  change (VTuple [VStr sentinel; k; i]) with (_TO_PACKED_DBOBJ k i).
  destruct (truthy env i) eqn:Ht;
    [| apply (id2db_packed_falsy env _ _ Ht)].
  rewrite (id2db_packed_truthy env _ _ Ht).
  assert (Hother : as_natural_key k = None ->
            (let! entry := to_model_map_get env k in
             let! o := fetch env entry i in _TO_TYPECLASS env o)
            = (if hashable k then ([], inl AttributeError)
               else ([], inl TypeError))).
  { intros Hk. unfold to_model_map_get. rewrite Hk.
    destruct (hashable k); reflexivity. }
  destruct k as [| | | | | | l | | | |]; try (apply Hother; reflexivity).
  destruct l as [| x [| y [| z l]]]; try (apply Hother; reflexivity);
    destruct x; try (apply Hother; reflexivity);
    destruct y; try (rewrite Hother by reflexivity;
                     destruct (hashable _); reflexivity).
  clear Hother. unfold to_model_map_get.
  replace (hashable (VTuple [VStr s; VStr s0])) with true by reflexivity.
  cbn [as_natural_key].
  destruct (_TO_MODEL_MAP env !! (s, s0)) as [[cls |] |]; try reflexivity.
  rewrite bind_ret_l. cbn [fetch].
  destruct (objects_get env cls i) as [e | a]; [reflexivity |].
  assert (Hf : (let! _ := emit (EvGet cls i) in ret (VObj a))
               = ([EvGet cls i], inr (VObj a))) by reflexivity.
  rewrite Hf, bind_value. unfold _TO_TYPECLASS.
  destruct (obj_attr env a "typeclass") as [t |] eqn:Hattr.
  - rewrite (hasattr_some env _ _ _ Hattr), (getattr_some env _ _ _ Hattr),
      bind_value.
    destruct (truthy env t); reflexivity.
  - cbn [hasattr]. rewrite Hattr. rewrite bool_decide_eq_false_2;
      [reflexivity |]. intros [x Hx]. discriminate.
Qed.

(** C6: a packed triple whose identity slot is falsy decodes to [None],
    whatever its key slot holds; nothing is raised and nothing is fetched
    (the trace of the walk is empty, that of [from_pickle] is the commit
    alone). *)
Theorem absent_identity_is_none (env : Env) (k i : Value) :
  truthy env i = false ->
  iter_id2db env (VTuple [VStr sentinel; k; i]) = ([], inr VNone)
  /\ from_pickle env (VTuple [VStr sentinel; k; i]) false
     = ([EvCommit], inr VNone).
Proof.
  intros Ht.
  pose proof (id2db_packed_falsy env k i Ht) as H.
  unfold _TO_PACKED_DBOBJ in H. split; [exact H |].
  unfold from_pickle. rewrite bind_ret_l, H. reflexivity.
Qed.

Lemma absent_identity_is_none_witness :
  iter_id2db Sample.world (VTuple [VStr sentinel; VList [VInt 1]; VInt 0])
  = ([], inr VNone)
  /\ from_pickle Sample.world (VTuple [VStr sentinel; VList [VInt 1]; VInt 0])
       false
     = ([EvCommit], inr VNone).
Proof. apply absent_identity_is_none. reflexivity. Defined.

(** ** Serialising the encoded structure *)

(** C7, as amended: with [do_pickle] set and [emptypickle] cleared, an
    encoded result that is falsy and for which [data != False] holds
    ([None], the empty string, an empty tuple, list or dict, a falsy object
    that does not compare equal to [False]) is returned as it is; a result
    for which [data != False] does not hold ([False], [0], [0.0], an object
    that compares equal to [False]) is serialised all the same, and so is
    every truthy one.  With [emptypickle] set every result is serialised. *)
Theorem emptypickle_gate (env : Env) (data enc : Value) (t : list Event) :
  iter_db2id env data = (t, inr enc) ->
  (truthy env enc = false -> ne_False env enc = true ->
     to_pickle env data true false = (t, inr enc))
  /\ (ne_False env enc = false ->
     to_pickle env data true false = let! d := (t, inr enc) in _DUMPS env d)
  /\ (truthy env enc = true ->
     to_pickle env data true false = let! d := (t, inr enc) in _DUMPS env d)
  /\ to_pickle env data true true = (let! d := (t, inr enc) in _DUMPS env d)
  /\ ne_False env enc
     = match enc with
       | VBool b => b
       | VInt n | VLong n => negb (Z.eqb n 0)
       | VFloat bits => negb (Z.eqb (Z.land bits (Z.ones 63)) 0)
       | VObj a => obj_ne_False env a
       | _ => true
       end.
Proof.
  intros He. unfold to_pickle. rewrite He, !bind_value.
  cbn [andb negb]. repeat split.
  - intros Ht Hf. rewrite Ht, Hf. cbn. rewrite app_nil_r. reflexivity.
  - intros Hf. rewrite Hf, andb_false_r. reflexivity.
  - intros Ht. rewrite Ht. reflexivity.
  - destruct enc as [| [] | | | | | | | | |]; reflexivity.
Qed.

Lemma emptypickle_gate_witness :
  (truthy Sample.world (VList []) = false ->
   ne_False Sample.world (VList []) = true ->
     to_pickle Sample.world (VList []) true false = ([], inr (VList [])))
  /\ (ne_False Sample.world (VList []) = false ->
     to_pickle Sample.world (VList []) true false
     = let! d := ([], inr (VList [])) in _DUMPS Sample.world d)
  /\ (truthy Sample.world (VList []) = true ->
     to_pickle Sample.world (VList []) true false
     = let! d := ([], inr (VList [])) in _DUMPS Sample.world d)
  /\ to_pickle Sample.world (VList []) true true
     = (let! d := ([], inr (VList [])) in _DUMPS Sample.world d)
  /\ ne_False Sample.world (VList [])
     = match VList [] with
       | VBool b => b
       | VInt n | VLong n => negb (Z.eqb n 0)
       | VFloat bits => negb (Z.eqb (Z.land bits (Z.ones 63)) 0)
       | VObj a => obj_ne_False Sample.world a
       | _ => true
       end.
Proof. apply (emptypickle_gate Sample.world (VList [])). reflexivity. Defined.

(** A falsy object that compares equal to [False], like [0j], is
    serialised with [emptypickle] cleared; [None] is not. *)
Example emptypickle_zero_object :
  to_pickle Sample.world (VObj 7) true false = ([], inr (VStr "<pickle>"))
  /\ to_pickle Sample.world VNone true false = ([], inr VNone).
Proof. vm_compute. split; reflexivity. Qed.

(** C7 as stated fails: [False] is a falsy encoded result, and with
    [do_pickle] set and [emptypickle] cleared it is serialised, not
    returned. *)
Lemma emptypickle_false_is_pickled :
  iter_db2id Sample.world (VBool false) = ([], inr (VBool false))
  /\ truthy Sample.world (VBool false) = false
  /\ to_pickle Sample.world (VBool false) true false
     = _DUMPS Sample.world (VBool false)
  /\ to_pickle Sample.world (VBool false) true false
     <> ([], inr (VBool false)).
Proof. repeat split. vm_compute. discriminate. Qed.

(** ** The commit comes first *)

Lemma _LOADS_silent (env : Env) (data : Value) : trace (_LOADS env data) = [].
Proof.
  unfold _LOADS. destruct data; try reflexivity.
  destruct (pickle_loads env s); reflexivity.
Qed.

(** C8: in the run of [from_pickle], whatever the input and the flag, no
    fetch by identity comes before the commit: the trace is empty (the
    unpickling raised) or starts with the commit. *)
Theorem commit_precedes_fetch (env : Env) (data : Value) (do_pickle : bool) :
  barrier_ok (trace (from_pickle env data do_pickle)) = true
  /\ (trace (from_pickle env data do_pickle) = []
      \/ exists data' : Value,
           trace (from_pickle env data do_pickle)
           = EvCommit :: trace (iter_id2db env data')).
Proof.
  unfold from_pickle.
  assert (Hl : trace (if do_pickle then _LOADS env data else ret data) = []).
  { destruct do_pickle; [apply _LOADS_silent | reflexivity]. }
  destruct (if do_pickle then _LOADS env data else ret data) as [t [e | d]];
    cbn [trace fst] in Hl; subst t.
  - split; [reflexivity | left; reflexivity].
  - rewrite bind_value. unfold emit. rewrite bind_value.
    cbn [trace fst app]. split; [reflexivity |].
    right. exists d. reflexivity.
Qed.

(** ** Mappings in the decoder *)

(** Walking the items of a mapping is walking its values: the keys are
    copied. *)
Lemma walk_items_values (f : Value -> M Value) (kvs : list (Value * Value)) :
  walk_items f kvs
  = let! vs := mapM f (map snd kvs) in ret (zip (map fst kvs) vs).
Proof.
  induction kvs as [| [k v] rest IH]; [reflexivity |].
  unfold walk_items in *. rewrite mapM_cons. cbn [map fst snd].
  rewrite mapM_cons, IH.
  destruct (f v) as [t [e | v']]; [reflexivity |].
  destruct (mapM f (map snd rest)) as [t' [e | vs]];
    cbn; rewrite ?app_nil_r; reflexivity.
Qed.

Lemma zip_keys (ks : list Value) (vs : list Value) :
  length vs = length ks -> map fst (zip ks vs) = ks.
Proof.
  revert vs. induction ks as [| k ks IH]; intros [| v vs] Hl;
    try discriminate; [reflexivity |].
  cbn. f_equal. apply IH. cbn in Hl. congruence.
Qed.

(** C9: the decoder rebuilds a mapping from the walk of its values alone;
    when it returns, the result is a mapping with the keys of the input, in
    the same order, each key being the very value it was (a packed triple
    used as a key is still that triple). *)
Theorem decoded_mapping_keeps_keys (env : Env) (kvs : list (Value * Value)) :
  iter_id2db env (VDict kvs)
  = (let! vs := mapM (iter_id2db env) (map snd kvs) in
     ret (VDict (zip (map fst kvs) vs)))
  /\ match outcome (iter_id2db env (VDict kvs)) with
     | inl _ => True
     | inr r => exists kvs', r = VDict kvs' /\ map fst kvs' = map fst kvs
     end.
Proof.
  assert (Heq : iter_id2db env (VDict kvs)
                = (let! vs := mapM (iter_id2db env) (map snd kvs) in
                   ret (VDict (zip (map fst kvs) vs)))).
  { rewrite iter_id2db_dict, walk_items_values.
    destruct (mapM (iter_id2db env) (map snd kvs)) as [t [e | vs]];
      [reflexivity |].
    rewrite !bind_value. cbn. rewrite !app_nil_r. reflexivity. }
  split; [exact Heq |]. rewrite Heq.
  destruct (mapM (iter_id2db env) (map snd kvs)) as [t [e | vs]] eqn:Hm;
    [exact I |].
  rewrite bind_value. cbn [ret outcome snd].
  exists (zip (map fst kvs) vs). split; [reflexivity |].
  apply zip_keys. rewrite length_map.
  rewrite <- (length_map snd kvs). apply (mapM_length (iter_id2db env)).
  rewrite Hm. reflexivity.
Qed.

Example packed_key_untouched :
  iter_id2db Sample.world (VDict [(Sample.token7, Sample.token7)])
  = ([EvGet "ObjectDB" (VInt 7); EvRead (VObj 1) "typeclass"],
     inr (VDict [(Sample.token7, VObj 2)])).
Proof. vm_compute. reflexivity. Qed.

(** ** The encoder's last branch *)

Section LastBranch.

Variable env : Env.

Lemma iter_db2id_falls_through v :
  falls_through v = true -> iter_db2id env v = db2id_other env v.
Proof. destruct v; try discriminate; reflexivity. Qed.

(** Unwrapping reads [dbobj] at most. *)
Lemma _TO_DBOBJ_trace v :
  trace (_TO_DBOBJ env v) = [] \/ trace (_TO_DBOBJ env v) = [EvRead v "dbobj"].
Proof.
  unfold _TO_DBOBJ. destruct (hasattr env v "dbobj") eqn:Hh; [| by left].
  destruct v; try discriminate. cbn in Hh. apply bool_decide_eq_true in Hh.
  destruct Hh as [d Hd]. rewrite (getattr_some _ _ _ _ Hd), bind_value.
  right. destruct (truthy env d); reflexivity.
Qed.

(** The last branch when the unwrapped value gets no key: it hands the
    unwrapped value back and has read nothing more. *)
Lemma db2id_other_no_key v d :
  outcome (_TO_DBOBJ env v) = inr d ->
  truthy env (from_model_map_get env
                (if hasattr env d "id" then Some (lower (class_name env d))
                 else None)) = false ->
  db2id_other env v = (trace (_TO_DBOBJ env v), inr d).
Proof.
  intros Hd Hk. unfold db2id_other.
  destruct (_TO_DBOBJ env v) as [t r]. cbn [outcome snd] in Hd. subst r.
  rewrite bind_value, Hk. cbn. rewrite app_nil_r. reflexivity.
Qed.

End LastBranch.

(** C4, as amended: a value that is neither tuple, dict nor iterable, that
    does not unwrap to something else (no truthy [dbobj] attribute of its
    own) and whose class has no entry in the directory is returned by the
    encoder as it is, no triple being made and nothing raised; the decoder
    returns it as it is too, and so does the round trip. *)
Theorem unknown_type_passes_through (env : Env) (v : Value) :
  opaque v = true ->
  outcome (_TO_DBOBJ env v) = inr v ->
  _FROM_MODEL_MAP env !! lower (class_name env v) = None ->
  outcome (iter_db2id env v) = inr v
  /\ iter_id2db env v = ([], inr v)
  /\ outcome (round_trip env v) = inr v.
Proof.
  intros Ho Hd Hk.
  assert (He : outcome (iter_db2id env v) = inr v).
  { destruct (type_in (type_of v) [TBasestring; TInt; TFloat]) eqn:Hs.
    - rewrite (iter_db2id_opaque env v Ho), Hs. reflexivity.
    - rewrite (iter_db2id_falls_through env v),
        (db2id_other_no_key env v v Hd); [reflexivity | |].
      + destruct (hasattr env v "id"); cbn [from_model_map_get];
          [rewrite Hk |]; reflexivity.
      + unfold falls_through. rewrite Hs, Ho. reflexivity. }
  pose proof (iter_id2db_opaque env v Ho) as Hi.
  split; [exact He |]. split; [exact Hi |].
  unfold round_trip, to_pickle.
  destruct (iter_db2id env v) as [t r]. cbn [outcome snd] in He. subst r.
  rewrite !bind_value. cbn [andb ret outcome snd].
  unfold from_pickle. rewrite bind_value, bind_ret_l.
  unfold emit. rewrite bind_value, Hi. reflexivity.
Qed.

Lemma unknown_type_passes_through_witness :
  outcome (iter_db2id Sample.world (VObj 6)) = inr (VObj 6)
  /\ iter_id2db Sample.world (VObj 6) = ([], inr (VObj 6))
  /\ outcome (round_trip Sample.world (VObj 6)) = inr (VObj 6).
Proof. apply unknown_type_passes_through; reflexivity. Defined.

(** C4 as stated fails: object 4 is of a class the directory does not
    know, and the encoder returns not that object but the value of its
    [dbobj] attribute. *)
Lemma unknown_type_wrapper_unwrapped :
  _FROM_MODEL_MAP Sample.world !! lower (class_name Sample.world (VObj 4)) = None
  /\ _FROM_MODEL_MAP Sample.world !! lower (class_name Sample.world (VObj 5)) = None
  /\ iter_db2id Sample.world (VObj 4) = ([EvRead (VObj 4) "dbobj"], inr (VObj 5))
  /\ outcome (iter_db2id Sample.world (VObj 4)) <> inr (VObj 4).
Proof. repeat split. vm_compute. discriminate. Qed.

(** C10, as amended: a value that reaches the encoder's last branch and
    whose unwrapped form has no [id] attribute makes the encoder return
    without raising: the lookup key is [False], the directory answers its
    falsy default, [id] is never read, and a value that has no truthy
    [dbobj] attribute of its own is returned as it is. *)
Theorem no_identity_never_raises (env : Env) (v d : Value) :
  falls_through v = true ->
  outcome (_TO_DBOBJ env v) = inr d ->
  hasattr env d "id" = false ->
  (exists r, outcome (iter_db2id env v) = inr r /\ (d = v -> r = v))
  /\ (if hasattr env d "id" then Some (lower (class_name env d)) else None) = None
  /\ truthy env (from_model_map_get env None) = false
  /\ forallb (fun ev => negb (reads "id" ev)) (trace (iter_db2id env v)) = true.
Proof.
  intros Hf Hd Hi.
  assert (He : iter_db2id env v = (trace (_TO_DBOBJ env v), inr d)).
  { rewrite (iter_db2id_falls_through env v Hf).
    apply db2id_other_no_key; [exact Hd |]. rewrite Hi. reflexivity. }
  rewrite He, Hi. cbn [outcome trace fst snd].
  repeat split; try reflexivity.
  - exists d. split; [reflexivity | intros ->; reflexivity].
  - destruct (_TO_DBOBJ_trace env v) as [-> | ->]; reflexivity.
Qed.

Lemma no_identity_never_raises_witness :
  (exists r, outcome (iter_db2id Sample.world (VObj 6)) = inr r
             /\ (VObj 6 = VObj 6 -> r = VObj 6))
  /\ (if hasattr Sample.world (VObj 6) "id"
      then Some (lower (class_name Sample.world (VObj 6))) else None) = None
  /\ truthy Sample.world (from_model_map_get Sample.world None) = false
  /\ forallb (fun ev => negb (reads "id" ev))
       (trace (iter_db2id Sample.world (VObj 6))) = true.
Proof. apply no_identity_never_raises; reflexivity. Defined.

(** C10 as stated fails in its last part: object 4 and the object it
    wraps have no [id]; the encoder does not raise, but it returns the
    wrapped object 5, not object 4. *)
Lemma no_identity_wrapper_unwrapped :
  falls_through (VObj 4) = true
  /\ hasattr Sample.world (VObj 4) "id" = false
  /\ hasattr Sample.world (VObj 5) "id" = false
  /\ outcome (_TO_DBOBJ Sample.world (VObj 4)) = inr (VObj 5)
  /\ outcome (iter_db2id Sample.world (VObj 4)) = inr (VObj 5)
  /\ outcome (iter_db2id Sample.world (VObj 4)) <> inr (VObj 4).
Proof. repeat split. vm_compute. discriminate. Qed.

(** * Further properties of the two walkers *)

(** X1: the last branch of the encoder, which every value that is not
    of a scalar type, a tuple, a dict or an iterable reaches, does not raise
    and does one of two things.  With [d] what the value unwraps to (its
    truthy [dbobj] attribute if it has one, itself if not): when [d] has an
    [id] attribute and the lower-cased name of its class has a key in the
    directory, the result is the packed triple of the sentinel, that key and
    that [id]; otherwise the result is [d]. *)
Theorem last_branch_packs_or_returns (env : Env) (v : Value) :
  falls_through v = true ->
  exists d,
    outcome (_TO_DBOBJ env v) = inr d
    /\ d = match v with
           | VObj a =>
               match obj_attr env a "dbobj" with
               | Some x => if truthy env x then x else v
               | None => v
               end
           | _ => v
           end
    /\ ((exists b nk i,
           d = VObj b /\ obj_attr env b "id" = Some i
           /\ _FROM_MODEL_MAP env !! lower (obj_class env b) = Some nk
           /\ outcome (iter_db2id env v)
              = inr (VTuple [VStr sentinel; VTuple [VStr (fst nk); VStr (snd nk)];
                             i]))
        \/ ((hasattr env d "id" = false
             \/ _FROM_MODEL_MAP env !! lower (class_name env d) = None)
            /\ outcome (iter_db2id env v) = inr d)).
Proof.
  intros Hf. rewrite (iter_db2id_falls_through env v Hf).
  assert (Hd : exists d,
            outcome (_TO_DBOBJ env v) = inr d
            /\ d = match v with
                   | VObj a =>
                       match obj_attr env a "dbobj" with
                       | Some x => if truthy env x then x else v
                       | None => v
                       end
                   | _ => v
                   end).
  { unfold _TO_DBOBJ. destruct v; try (eexists; split; reflexivity).
    destruct (obj_attr env a "dbobj") as [x |] eqn:Hx.
    - rewrite (hasattr_some env _ _ _ Hx), (getattr_some env _ _ _ Hx),
        bind_value.
      destruct (truthy env x); eexists; split; reflexivity.
    - cbn [hasattr]. rewrite Hx, bool_decide_eq_false_2.
      + eexists; split; reflexivity.
      + intros [y Hy]. discriminate. }
  destruct Hd as [d [Hd Hform]]. exists d. split; [exact Hd |].
  split; [exact Hform |]. clear Hform. unfold db2id_other.
  rewrite (outcome_bind _ _ _ Hd).
  destruct (hasattr env d "id") eqn:Hid; [| right; split; [left |]; reflexivity].
  destruct d as [| | | | | | | | | | b]; try discriminate Hid.
  cbn in Hid. apply bool_decide_eq_true in Hid. destruct Hid as [i Hi].
  cbn [class_name from_model_map_get].
  destruct (_FROM_MODEL_MAP env !! lower (obj_class env b)) as [nk |] eqn:Hk.
  - left. exists b, nk, i. repeat split; try assumption.
    cbn [natural_key_value truthy length Nat.eqb negb].
    rewrite (getattr_some env _ _ _ Hi), bind_value. reflexivity.
  - right. split; [right; reflexivity | reflexivity].
Qed.

Lemma last_branch_packs_or_returns_witness :
  exists d,
    outcome (_TO_DBOBJ Sample.world (VObj 2)) = inr d
    /\ d = match VObj 2 with
           | VObj a =>
               match obj_attr Sample.world a "dbobj" with
               | Some x => if truthy Sample.world x then x else VObj 2
               | None => VObj 2
               end
           | _ => VObj 2
           end
    /\ ((exists b nk i,
           d = VObj b /\ obj_attr Sample.world b "id" = Some i
           /\ _FROM_MODEL_MAP Sample.world !! lower (obj_class Sample.world b)
              = Some nk
           /\ outcome (iter_db2id Sample.world (VObj 2))
              = inr (VTuple [VStr sentinel; VTuple [VStr (fst nk); VStr (snd nk)];
                             i]))
        \/ ((hasattr Sample.world d "id" = false
             \/ _FROM_MODEL_MAP Sample.world !! lower (class_name Sample.world d)
                = None)
            /\ outcome (iter_db2id Sample.world (VObj 2)) = inr d)).
Proof. apply last_branch_packs_or_returns. reflexivity. Defined.

Section Listify.

Variable env : Env.

Lemma mapM_ret_map {A B} (f : A -> M B) (g : A -> B) (l : list A) :
  Forall (fun x => f x = ret (g x)) l -> mapM f l = ret (map g l).
Proof.
  induction 1 as [| x xs Hx _ IH]; [reflexivity |].
  rewrite mapM_cons, Hx, bind_ret_l, IH, bind_ret_l. reflexivity.
Qed.

Lemma forallb_Forall_impl {A} (p : A -> bool) (P Q : A -> Prop) (l : list A) :
  forallb p l = true ->
  Forall (fun x => p x = true -> P x -> Q x) l ->
  Forall P l -> Forall Q l.
Proof.
  intros Hp HQ HP. induction l as [| x xs IH]; [constructor |].
  cbn in Hp. apply andb_prop in Hp as [Hx Hxs].
  inversion HQ; inversion HP; subst. constructor; auto.
Qed.

Lemma forallb_Forall_intro {A} (p : A -> bool) (Q : A -> Prop) (l : list A) :
  forallb p l = true ->
  Forall (fun x => p x = true -> Q x) l -> Forall Q l.
Proof.
  intros Hp HQ. induction l as [| x xs IH]; [constructor |].
  cbn in Hp. apply andb_prop in Hp as [Hx Hxs].
  inversion HQ; subst. constructor; auto.
Qed.

Lemma iter_db2id_object_free v :
  object_free v = true -> iter_db2id env v = ret (listify v).
Proof.
  induction v using Value_nested_ind; intros Ho; try reflexivity;
    try discriminate; cbn [object_free] in Ho.
  - rewrite iter_db2id_tuple, (mapM_ret_map _ listify), bind_ret_l;
      [reflexivity |]. exact (forallb_Forall_intro _ _ _ Ho H).
  - rewrite iter_db2id_list, (mapM_ret_map _ listify), bind_ret_l;
      [reflexivity |]. exact (forallb_Forall_intro _ _ _ Ho H).
  - rewrite iter_db2id_dict. unfold walk_items.
    rewrite (mapM_ret_map _ (fun kv => (fst kv, listify (snd kv)))),
      bind_ret_l; [reflexivity |].
    apply (forallb_Forall_intro _ _ _ Ho).
    eapply Forall_impl; [exact H |].
    intros [k x] IH Hx. cbn in *. rewrite (IH Hx), bind_ret_l. reflexivity.
  - change (iter_db2id env (VSet l))
      with (let! vs := mapM (iter_db2id env) l in ret (VList vs)).
    rewrite (mapM_ret_map _ listify), bind_ret_l; [reflexivity |].
    exact (forallb_Forall_intro _ _ _ Ho H).
Qed.

Lemma forallb_map_eq {A B} (p : B -> bool) (q : A -> bool) (g : A -> B)
    (l : list A) :
  Forall (fun x => p (g x) = q x) l -> forallb p (map g l) = forallb q l.
Proof.
  induction 1 as [| x xs Hx _ IH]; [reflexivity |].
  cbn. rewrite Hx, IH. reflexivity.
Qed.

Lemma plain_listify v : plain (listify v) = object_free v.
Proof.
  induction v using Value_nested_ind; try reflexivity; cbn [listify plain object_free].
  - apply forallb_map_eq, H.
  - apply forallb_map_eq, H.
  - apply (forallb_map_eq (fun kv => plain (snd kv))
             (fun kv => object_free (snd kv))).
    eapply Forall_impl; [exact H |]. intros [k x] Hx. exact Hx.
  - apply forallb_map_eq, H.
Qed.

Lemma eq_str_listify v s : eq_str (listify v) s = eq_str v s.
Proof. destruct v; reflexivity. Qed.

Lemma packed_listify v : _IS_PACKED_DBOBJ (listify v) = _IS_PACKED_DBOBJ v.
Proof.
  destruct v; try reflexivity. unfold _IS_PACKED_DBOBJ.
  cbn [listify type_of py_len py_index]. rewrite length_map.
  destruct items as [| x xs]; [reflexivity |]. cbn [map nth].
  rewrite eq_str_listify. reflexivity.
Qed.

Lemma token_free_listify v : token_free (listify v) = token_free v.
Proof.
  induction v using Value_nested_ind; try reflexivity.
  - change (token_free (listify (VTuple l)))
      with (negb (_IS_PACKED_DBOBJ (listify (VTuple l)))
            && forallb token_free (map listify l)).
    rewrite packed_listify. cbn [token_free]. f_equal.
    apply forallb_map_eq, H.
  - cbn [listify token_free]. f_equal. apply forallb_map_eq, H.
  - cbn [listify token_free]. f_equal.
    apply (forallb_map_eq (fun kv => token_free (snd kv))
             (fun kv => token_free (snd kv))).
    eapply Forall_impl; [exact H |]. intros [k x] Hx. exact Hx.
  - cbn [listify token_free]. f_equal. apply forallb_map_eq, H.
Qed.

End Listify.

(** X3: on a value that holds no live object and no triple headed by the
    sentinel, the round trip without serialisation returns the value with
    every set (any iterable other than tuple, list and dict) turned into a
    list, and nothing else changed. *)
Theorem round_trip_turns_sets_into_lists (env : Env) (v : Value) :
  object_free v = true -> token_free v = true ->
  iter_db2id env v = ([], inr (listify v))
  /\ round_trip env v = ([EvCommit], inr (listify v)).
Proof.
  intros Ho Hf.
  pose proof (iter_db2id_object_free env v Ho) as He.
  split; [exact He |].
  unfold round_trip, to_pickle, from_pickle.
  rewrite He, bind_ret_l. cbn [andb]. rewrite !bind_ret_l.
  rewrite (iter_id2db_plain env (listify v)).
  - reflexivity.
  - rewrite plain_listify. exact Ho.
  - rewrite token_free_listify. exact Hf.
Qed.

Lemma round_trip_turns_sets_into_lists_witness :
  iter_db2id Sample.world (VDict [(VStr "seen", VSet [VInt 1; VTuple [VSet []]])])
  = ([], inr (VDict [(VStr "seen", VList [VInt 1; VTuple [VList []]])]))
  /\ round_trip Sample.world
       (VDict [(VStr "seen", VSet [VInt 1; VTuple [VSet []]])])
     = ([EvCommit],
        inr (VDict [(VStr "seen", VList [VInt 1; VTuple [VList []]])])).
Proof.
  apply (round_trip_turns_sets_into_lists Sample.world
           (VDict [(VStr "seen", VSet [VInt 1; VTuple [VSet []]])]));
    reflexivity.
Defined.

Lemma mapM_Forall2 {A B} (f : A -> M B) (l : list A) (rs : list B) :
  outcome (mapM f l) = inr rs ->
  Forall2 (fun x r => outcome (f x) = inr r) l rs.
Proof.
  revert rs. induction l as [| x xs IH]; intros rs.
  - cbn. intros [= <-]. constructor.
  - rewrite mapM_cons. destruct (f x) as [t [e | y]] eqn:Hx; [discriminate |].
    rewrite bind_value. cbn [outcome snd].
    destruct (mapM f xs) as [t' [e | ys]] eqn:Hxs; [discriminate |].
    rewrite bind_value. cbn. intros [= <-].
    constructor; [rewrite Hx; reflexivity | apply IH; reflexivity].
Qed.

(** X4: when the encoder returns on a dict, what it returns is a dict
    with the same keys, none of them walked: each key is the very value it
    was, entities included, and carries the encoding of a value it had in
    the input. *)
Theorem encoded_mapping_keeps_keys (env : Env) (kvs : list (Value * Value))
    (r : Value) :
  outcome (iter_db2id env (VDict kvs)) = inr r ->
  exists kvs',
    r = VDict kvs'
    /\ Permutation (map fst kvs') (map fst kvs)
    /\ forall k v', In (k, v') kvs' ->
          exists v, In (k, v) kvs /\ outcome (iter_db2id env v) = inr v'.
Proof.
  rewrite iter_db2id_dict, walk_items_values.
  destruct (mapM (iter_db2id env) (map snd kvs)) as [t [e | vs]] eqn:Hm;
    [discriminate |].
  rewrite !bind_value. cbn [ret outcome snd]. intros [= <-].
  assert (HF : Forall2 (fun x y => outcome (iter_db2id env x) = inr y)
                 (map snd kvs) vs)
    by (apply mapM_Forall2; rewrite Hm; reflexivity).
  pose proof (Forall2_length _ _ _ HF) as Hlen. rewrite length_map in Hlen.
  exists (zip (map fst kvs) vs). split; [reflexivity |]. split.
  - rewrite zip_keys by (rewrite length_map; lia). reflexivity.
  - intros k v' Hin. apply list_elem_of_In, list_elem_of_lookup in Hin
      as [n Hn].
    apply lookup_zip_with_Some in Hn as (k0 & v0 & [= <- <-] & Hk & Hv).
    destruct (Forall2_lookup_r _ _ _ _ _ HF Hv) as [v [Hsnd Henc]].
    rewrite list_lookup_fmap in Hk, Hsnd.
    destruct (kvs !! n) as [[k1 v1] |] eqn:Hkv; [| discriminate].
    cbn in Hk, Hsnd. injection Hk as <-. injection Hsnd as <-.
    exists v1. split; [| exact Henc].
    apply list_elem_of_In, list_elem_of_lookup. eauto.
Qed.

Lemma encoded_mapping_keeps_keys_witness :
  exists kvs',
    VDict [(VObj 2, Sample.token7)] = VDict kvs'
    /\ Permutation (map fst kvs') (map fst [(VObj 2, VObj 2)])
    /\ forall k v', In (k, v') kvs' ->
          exists v, In (k, v) [(VObj 2, VObj 2)]
                    /\ outcome (iter_db2id Sample.world v) = inr v'.
Proof.
  apply (encoded_mapping_keeps_keys Sample.world [(VObj 2, VObj 2)]).
  reflexivity.
Defined.

(** ** The directory *)

Section Directory.

Context {C K V : Type} `{Countable K}.
Variables (key : C -> K) (val : C -> V).

(** A dictionary filled row by row, later rows replacing earlier ones. *)
Local Abbreviation filled rows :=
  (foldl (fun (m : gmap K V) c => <[key c := val c]> m) ∅ rows).

Lemma filled_lookup_Some rows k v :
  filled rows !! k = Some v ->
  exists c, c ∈ rows /\ key c = k /\ val c = v.
Proof.
  induction rows as [| c rows IH] using rev_ind.
  - cbn. rewrite lookup_empty. discriminate.
  - rewrite foldl_snoc, lookup_insert. case_decide as Hk.
    + intros [= <-]. exists c. split; [| split; [exact Hk | reflexivity]].
      apply elem_of_app. right. apply list_elem_of_singleton. reflexivity.
    + intros Hl. destruct (IH Hl) as [c' [Hin Hc']]. exists c'.
      split; [| exact Hc']. apply elem_of_app. left. exact Hin.
Qed.

Lemma filled_lookup_member rows c :
  c ∈ rows ->
  exists c', c' ∈ rows /\ key c' = key c /\ filled rows !! key c = Some (val c').
Proof.
  induction rows as [| x rows IH] using rev_ind.
  - intros Hin. inversion Hin.
  - intros Hin. rewrite foldl_snoc, lookup_insert. case_decide as Hk.
    + exists x. split; [| split; [exact Hk | reflexivity]].
      apply elem_of_app. right. apply list_elem_of_singleton. reflexivity.
    + apply elem_of_app in Hin as [Hin | Hin].
      * destruct (IH Hin) as [c' [Hin' Hc']]. exists c'.
        split; [| exact Hc']. apply elem_of_app. left. exact Hin'.
      * apply list_elem_of_singleton in Hin. subst x. destruct (Hk eq_refl).
Qed.

End Directory.

(** X5: when the ContentType rows that [to_pickle] found are still there
    when [from_pickle] makes its own query, the two directory maps agree.  A
    key that [_FROM_MODEL_MAP] holds for a name is the natural key of a row
    whose model is that name, and [_TO_MODEL_MAP] has an entry for that key,
    the model class of a row with that natural key: the decoder does not
    fall back on its missing-key default for a key made by the encoder.
    Without the first assumption the key is still the natural key of a row
    of the encoder's query. *)
Theorem directory_maps_agree (env : Env) (name : string) (nk : string * string) :
  _FROM_MODEL_MAP env !! name = Some nk ->
  (snd nk = name
   /\ exists c, c ∈ content_types env /\ natural_key c = nk /\ model c = name)
  /\ ((forall c, c ∈ content_types env -> c ∈ content_types_decode env) ->
      exists c', c' ∈ content_types_decode env
                 /\ natural_key c' = nk
                 /\ _TO_MODEL_MAP env !! nk = Some (model_class c')).
Proof.
  intros Hf.
  destruct (filled_lookup_Some model natural_key _ _ _ Hf) as [c [Hin [Hm Hnk]]].
  split.
  - split; [subst nk name; reflexivity |]. exists c. auto.
  - intros Hsub.
    destruct (filled_lookup_member natural_key model_class _ _ (Hsub c Hin))
      as [c' [Hin' [Hk' Hl]]].
    exists c'. split; [exact Hin' |]. rewrite <- Hnk.
    split; [exact Hk' | exact Hl].
Qed.

Lemma directory_maps_agree_witness :
  (snd ("objects", "objectdb") = "objectdb"
   /\ exists c, c ∈ content_types Sample.world
                /\ natural_key c = ("objects", "objectdb")
                /\ model c = "objectdb")
  /\ ((forall c, c ∈ content_types Sample.world
                 -> c ∈ content_types_decode Sample.world) ->
      exists c', c' ∈ content_types_decode Sample.world
                 /\ natural_key c' = ("objects", "objectdb")
                 /\ _TO_MODEL_MAP Sample.world !! ("objects", "objectdb")
                    = Some (model_class c')).
Proof.
  apply (directory_maps_agree Sample.world "objectdb" ("objects", "objectdb")).
  reflexivity.
Defined.

(** ** Errors of the decoder *)

(** X6: a packed triple with a truthy identity whose key does not lead to
    a model class raises before anything is fetched: [TypeError] when the
    key cannot be hashed, [AttributeError] otherwise (the key is missing from
    the directory, or its row has no model class any more). *)
Theorem unresolved_key_raises (env : Env) (k i : Value) :
  truthy env i = true ->
  (forall cls, to_model_map_get env k <> ret (EntryClass cls)) ->
  iter_id2db env (VTuple [VStr sentinel; k; i])
  = ([], inl (if hashable k then AttributeError else TypeError)).
Proof.
  intros Ht Hk.
  change (VTuple [VStr sentinel; k; i]) with (_TO_PACKED_DBOBJ k i).
  rewrite (id2db_packed_truthy env _ _ Ht).
  unfold to_model_map_get in *. destruct (hashable k); [| reflexivity].
  destruct (as_natural_key k) as [nk |]; [| reflexivity].
  destruct (_TO_MODEL_MAP env !! nk) as [[cls |] |]; try reflexivity.
  destruct (Hk cls eq_refl).
Qed.

Lemma unresolved_key_raises_witness :
  iter_id2db Sample.world
    (VTuple [VStr sentinel; VTuple [VStr "objects"; VStr "nosuchmodel"]; VInt 7])
  = ([], inl (if hashable (VTuple [VStr "objects"; VStr "nosuchmodel"])
              then AttributeError else TypeError)).
Proof.
  apply unresolved_key_raises; [reflexivity |].
  intros cls. vm_compute. discriminate.
Defined.

(** X8: when [from_pickle] is asked to unpickle and that fails (the
    input is not a string, or the serialiser rejects it), the exception is
    the outcome and nothing else happened: no commit, no fetch. *)
Theorem unpickle_failure_skips_commit (env : Env) (data : Value) (e : Exc) :
  match data with
  | VStr s => pickle_loads env s = inl e
  | _ => e = TypeError
  end ->
  from_pickle env data true = ([], inl e).
Proof.
  intros H. unfold from_pickle, _LOADS.
  destruct data; try (subst e; reflexivity). rewrite H. reflexivity.
Qed.

Lemma unpickle_failure_skips_commit_witness :
  from_pickle Sample.world (VList [VInt 1]) true = ([], inl TypeError).
Proof. apply unpickle_failure_skips_commit. reflexivity. Defined.

(** ** With the serialiser *)

(** X9: when the serialiser gives back what it was given, plain data
    without sentinel-headed triples comes back unchanged from
    [from_pickle(to_pickle(v))] with both flags at their defaults. *)
Theorem pickled_round_trip_plain (env : Env) (v : Value) (s : string) :
  plain v = true -> token_free v = true ->
  pickle_dumps env v = inr s -> pickle_loads env s = inr v ->
  to_pickle env v true true = ([], inr (VStr s))
  /\ pickled_round_trip env v true = ([EvCommit], inr v).
Proof.
  intros Hp Hf Hd Hl.
  assert (Ht : to_pickle env v true true = ([], inr (VStr s))).
  { unfold to_pickle. rewrite (iter_db2id_plain env v Hp), bind_ret_l.
    cbn [negb andb]. unfold _DUMPS. rewrite Hd. reflexivity. }
  split; [exact Ht |].
  unfold pickled_round_trip. rewrite Ht, bind_value.
  unfold from_pickle, _LOADS. rewrite Hl, bind_ret_l.
  unfold emit. rewrite bind_value, (iter_id2db_plain env v Hp Hf).
  reflexivity.
Qed.

Lemma pickled_round_trip_plain_witness :
  to_pickle Pickled.world (VList [VInt 1; VStr "x"]) true true
  = ([], inr (VStr "(lI1\nS'x'\na."))
  /\ pickled_round_trip Pickled.world (VList [VInt 1; VStr "x"]) true
     = ([EvCommit], inr (VList [VInt 1; VStr "x"])).
Proof. apply pickled_round_trip_plain; reflexivity. Defined.

(** X10: with [emptypickle] off, plain data that is empty, is not a
    string and does not compare equal to [False] is handed back by
    [to_pickle] unserialised; [from_pickle] with [do_pickle] on then raises
    [TypeError] instead of returning it. *)
Theorem unpickled_empty_not_readable (env : Env) (v : Value) :
  plain v = true -> truthy env v = false -> eq_False v = false ->
  (forall s, v <> VStr s) ->
  to_pickle env v true false = ([], inr v)
  /\ pickled_round_trip env v false = ([], inl TypeError).
Proof.
  intros Hp Ht Hf Hs.
  assert (Hto : to_pickle env v true false = ([], inr v)).
  { unfold to_pickle. rewrite (iter_db2id_plain env v Hp), bind_ret_l.
    assert (Hn : ne_False env v = negb (eq_False v))
      by (destruct v; try reflexivity; discriminate Hp).
    rewrite Ht, Hn, Hf. reflexivity. }
  split; [exact Hto |].
  unfold pickled_round_trip. rewrite Hto, bind_value.
  unfold from_pickle, _LOADS.
  destruct v; try reflexivity. destruct (Hs s eq_refl).
Qed.

Lemma unpickled_empty_not_readable_witness :
  to_pickle Pickled.world (VList []) true false = ([], inr (VList []))
  /\ pickled_round_trip Pickled.world (VList []) false = ([], inl TypeError).
Proof.
  apply unpickled_empty_not_readable; try reflexivity. intros s. discriminate.
Defined.

(** ** Entities inside nested values *)

(** X7: the packed triple of an entity is fixed by the lower-cased class
    name of the row it unwraps to and by that row's [id]: a wrapper and its
    row, or two objects of classes whose names differ only in case or only
    in the module they live in, are packed into the same triple. *)
Theorem token_fixed_by_class_name_and_id (env : Env) (e1 e2 : Value)
    (d1 d2 : addr) (i : Value) (nk : string * string) :
  outcome (_TO_DBOBJ env e1) = inr (VObj d1) ->
  outcome (_TO_DBOBJ env e2) = inr (VObj d2) ->
  obj_attr env d1 "id" = Some i ->
  obj_attr env d2 "id" = Some i ->
  lower (obj_class env d1) = lower (obj_class env d2) ->
  _FROM_MODEL_MAP env !! lower (obj_class env d1) = Some nk ->
  outcome (iter_db2id env e1)
  = inr (VTuple [VStr sentinel; natural_key_value nk; i])
  /\ outcome (iter_db2id env e2) = outcome (iter_db2id env e1).
Proof.
  intros H1 H2 Hi1 Hi2 Hc Hk.
  assert (He : forall e d, outcome (_TO_DBOBJ env e) = inr (VObj d) ->
                 obj_attr env d "id" = Some i ->
                 _FROM_MODEL_MAP env !! lower (obj_class env d) = Some nk ->
                 outcome (iter_db2id env e)
                 = inr (VTuple [VStr sentinel; natural_key_value nk; i])).
  { intros e d Hd Hi Hnk. destruct e; try discriminate Hd.
    change (iter_db2id env (VObj a)) with (db2id_other env (VObj a)).
    apply (db2id_other_entity env _ _ _ _ Hd Hi Hnk). }
  rewrite (He e1 d1 H1 Hi1 Hk). split; [reflexivity |].
  apply (He e2 d2 H2 Hi2). rewrite <- Hc. exact Hk.
Qed.

Lemma token_fixed_by_class_name_and_id_witness :
  outcome (iter_db2id Sample.world (VObj 2))
  = inr (VTuple [VStr sentinel; natural_key_value ("objects", "objectdb");
                 VInt 7])
  /\ outcome (iter_db2id Sample.world (VObj 1))
     = outcome (iter_db2id Sample.world (VObj 2)).
Proof.
  apply (token_fixed_by_class_name_and_id Sample.world (VObj 2) (VObj 1) 1 1
           (VInt 7) ("objects", "objectdb")); reflexivity.
Defined.

Section Storable.

Variable env : Env.

Lemma storable_items (l : list Value) :
  (fix all (l : list Value) : Prop :=
     match l with
     | [] => True
     | x :: xs => storable env x /\ all xs
     end) l
  <-> Forall (storable env) l.
Proof.
  induction l as [| x xs IH]; [split; [constructor | exact (fun _ => I)] |].
  split.
  - intros [Hx Hxs]. constructor; [exact Hx | apply IH, Hxs].
  - intros Hl. inversion Hl; subst. split; [assumption | apply IH; assumption].
Qed.

Lemma storable_values (kvs : list (Value * Value)) :
  (fix vals (l : list (Value * Value)) : Prop :=
     match l with
     | [] => True
     | kv :: xs => storable env (snd kv) /\ vals xs
     end) kvs
  <-> Forall (storable env) (map snd kvs).
Proof.
  induction kvs as [| kv xs IH]; [split; [constructor | exact (fun _ => I)] |].
  split.
  - intros [Hx Hxs]. constructor; [exact Hx | apply IH, Hxs].
  - intros Hl. inversion Hl; subst. split; [assumption | apply IH; assumption].
Qed.

Lemma restores_items (l : list Value) :
  Forall (fun x => exists p, restores env x p) l ->
  exists ps, outcome (mapM (iter_db2id env) l) = inr ps
             /\ outcome (mapM (iter_id2db env) ps) = inr l
             /\ length ps = length l
             /\ forall s, eq_str (nth 0 ps VNone) s = eq_str (nth 0 l VNone) s.
Proof.
  induction 1 as [| x xs [p [He [Hd Hs]]] _ [ps [Hes [Hds [Hlen _]]]]].
  - exists []. repeat split.
  - exists (p :: ps).
    rewrite !mapM_cons, (outcome_bind _ _ _ He), (outcome_bind _ _ _ Hes),
      (outcome_bind _ _ _ Hd), (outcome_bind _ _ _ Hds).
    repeat split; [cbn; congruence | exact Hs].
Qed.

Lemma restores_entity (a : addr) :
  stored_entity env a -> exists p, restores env (VObj a) p.
Proof.
  intros [d [nk [i [cls [Hd [Hi [Hk [Ht [Hm [Hs Hw]]]]]]]]]].
  exists (_TO_PACKED_DBOBJ (natural_key_value nk) i). repeat split.
  - change (iter_db2id env (VObj a)) with (db2id_other env (VObj a)).
    apply (db2id_other_entity env _ _ _ _ Hd Hi Hk).
  - rewrite (id2db_packed_truthy env _ _ Ht),
      (to_model_map_get_key env _ _ Hm), bind_ret_l.
    cbn [fetch]. rewrite Hs.
    assert (Hf : outcome (let! _ := emit (EvGet cls i) in ret (VObj d))
                 = inr (VObj d)) by reflexivity.
    rewrite (outcome_bind _ _ _ Hf). exact Hw.
Qed.

Lemma storable_restores (v : Value) :
  storable env v -> exists p, restores env v p.
Proof.
  induction v using Value_nested_ind; intros Hst;
    try (exists v; repeat split; fail);
    try (eexists; repeat split; fail).
  - (* tuple *)
    destruct Hst as [Hn Hall]. apply storable_items in Hall.
    assert (Hl : Forall (fun x => exists p, restores env x p) l).
    { rewrite Forall_forall in *. intros x Hx. apply H; [exact Hx |].
      apply Hall, Hx. }
    destruct (restores_items l Hl) as [ps [Hes [Hds [Hlen Hhd]]]].
    exists (VTuple ps). repeat split.
    + rewrite iter_db2id_tuple, (outcome_bind _ _ _ Hes). reflexivity.
    + rewrite iter_id2db_tuple.
      assert (Hp : _IS_PACKED_DBOBJ (VTuple ps) = false).
      { rewrite <- Hn. unfold _IS_PACKED_DBOBJ.
        cbn [type_of py_len py_index]. rewrite Hlen, Hhd. reflexivity. }
      rewrite Hp, (outcome_bind _ _ _ Hds). reflexivity.
  - (* list *)
    apply storable_items in Hst.
    assert (Hl : Forall (fun x => exists p, restores env x p) l).
    { rewrite Forall_forall in *. intros x Hx. apply H; [exact Hx |].
      apply Hst, Hx. }
    destruct (restores_items l Hl) as [ps [Hes [Hds _]]].
    exists (VList ps). repeat split.
    + rewrite iter_db2id_list, (outcome_bind _ _ _ Hes). reflexivity.
    + rewrite iter_id2db_list, (outcome_bind _ _ _ Hds). reflexivity.
  - (* dict *)
    apply storable_values in Hst.
    assert (Hl : Forall (fun x => exists p, restores env x p) (map snd kvs)).
    { pose proof (proj1 (Forall_forall _ _) H) as H'.
      pose proof (proj1 (Forall_forall _ _) Hst) as Hst'.
      apply Forall_forall. intros x Hx.
      apply list_elem_of_fmap in Hx as [[k y] [-> Hin]].
      apply (H' _ Hin). apply Hst'. apply list_elem_of_fmap.
      exists (k, y). split; [reflexivity | exact Hin]. }
    destruct (restores_items _ Hl) as [ps [Hes [Hds [Hlen _]]]].
    rewrite length_map in Hlen.
    exists (VDict (zip (map fst kvs) ps)). repeat split.
    + rewrite iter_db2id_dict, walk_items_values.
      destruct (mapM (iter_db2id env) (map snd kvs)) as [t r].
      cbn [outcome snd] in Hes. subst r. rewrite !bind_value. reflexivity.
    + rewrite iter_id2db_dict, walk_items_values.
      rewrite snd_zip by (rewrite length_map; lia).
      rewrite fst_zip by (rewrite length_map; lia).
      destruct (mapM (iter_id2db env) ps) as [t r].
      cbn [outcome snd] in Hds. subst r. rewrite !bind_value.
      cbn [ret outcome snd]. rewrite zip_fst_snd. reflexivity.
  - (* set *)
    destruct Hst.
  - (* live object *)
    apply restores_entity, Hst.
Qed.

End Storable.

(** X11: nested structures keep their exact shape across the round trip.
    A value built from scalars, lists, mappings, tuples that are not a
    sentinel-headed triple, and entities that are the outward-facing form of
    a row still in storage (with a truthy identity and a class known to the
    directory) comes back as it was, entities included, at any depth. *)
Theorem round_trip_with_entities (env : Env) (v : Value) :
  storable env v -> outcome (round_trip env v) = inr v.
Proof.
  intros Hst. destruct (storable_restores env v Hst) as [p [He [Hd _]]].
  unfold round_trip, to_pickle.
  destruct (iter_db2id env v) as [t r]. cbn [outcome snd] in He. subst r.
  rewrite !bind_value. cbn [andb ret outcome snd].
  unfold from_pickle. rewrite bind_value, bind_ret_l.
  unfold emit. rewrite bind_value. cbn [outcome snd]. exact Hd.
Qed.

Lemma round_trip_with_entities_witness :
  outcome (round_trip Sample.world
    (VDict [(VStr "a", VList [VInt 1; VTuple [VObj 2; VStr "x"];
                              VDict [(VInt 2, VObj 2)]])]))
  = inr (VDict [(VStr "a", VList [VInt 1; VTuple [VObj 2; VStr "x"];
                                  VDict [(VInt 2, VObj 2)]])]).
Proof.
  apply round_trip_with_entities.
  assert (He : stored_entity Sample.world 2).
  { exists 1, ("objects", "objectdb"), (VInt 7), "ObjectDB".
    repeat split; reflexivity. }
  cbn. repeat split; exact He.
Defined.

(** * Properties of the text helpers *)

(** [make_iter] always answers something iterable, leaves what is
    iterable alone and wraps anything else, strings included, in a list of
    one item; applying it twice changes nothing more. *)
Lemma make_iter_iterable (obj : Value) :
  is_iter (make_iter obj) = true
  /\ make_iter (make_iter obj) = make_iter obj
  /\ (if is_iter obj then make_iter obj = obj
      else make_iter obj = VList [obj]).
Proof. destruct obj; repeat split. Qed.

Section Strings.

Lemma length_app_str (a b : string) :
  String.length (a +:+ b) = String.length a + String.length b.
Proof.
  induction a as [| c a IH]; [reflexivity |].
  change (String c a +:+ b) with (String c (a +:+ b)). cbn [String.length].
  rewrite IH. reflexivity.
Qed.

Lemma length_take_str (n : nat) (s : string) :
  String.length (take_str n s) = Nat.min n (String.length s).
Proof.
  revert s. induction n as [| n IH]; intros [| c s]; try reflexivity.
  cbn [take_str String.length]. rewrite IH. reflexivity.
Qed.

Lemma replace_char_absent (c : ascii) (r s : string) :
  has_char c s = false -> replace_char c r s = s.
Proof.
  induction s as [| x s IH]; [reflexivity |]. cbn [has_char replace_char].
  intros H. apply orb_false_elim in H as [Hx Hs]. rewrite Hx, (IH Hs).
  reflexivity.
Qed.

Lemma app_assoc_str (r u w : string) : r +:+ (u +:+ w) = (r +:+ u) +:+ w.
Proof.
  induction r as [| y r IHr]; [reflexivity |].
  change (String y r +:+ u) with (String y (r +:+ u)).
  change (String y (r +:+ u) +:+ w) with (String y ((r +:+ u) +:+ w)).
  change (String y r +:+ (u +:+ w)) with (String y (r +:+ (u +:+ w))).
  rewrite IHr. reflexivity.
Qed.

Lemma replace_char_app (c : ascii) (r a b : string) :
  replace_char c r (a +:+ b) = replace_char c r a +:+ replace_char c r b.
Proof.
  induction a as [| x a IH]; [reflexivity |].
  change (String x a +:+ b) with (String x (a +:+ b)). cbn [replace_char].
  rewrite IH. destruct (Ascii.eqb x c); [| reflexivity].
  apply app_assoc_str.
Qed.

Lemma last_char_app (a : string) (c : ascii) :
  last_char (a +:+ String c "") = Some c.
Proof.
  induction a as [| x a IH]; [reflexivity |].
  change (String x a +:+ String c "") with (String x (a +:+ String c "")).
  cbn [last_char]. rewrite IH.
  destruct (a +:+ String c "") eqn:E; [| reflexivity].
  destruct a; discriminate E.
Qed.

Lemma last_char_absent (c : ascii) (s : string) (x : ascii) :
  has_char c s = false -> last_char s = Some x -> Ascii.eqb x c = false.
Proof.
  induction s as [| y s IH]; [discriminate |]. cbn [has_char].
  intros H. apply orb_false_elim in H as [Hy Hs]. cbn [last_char].
  destruct s as [| z s']; [intros [= <-]; exact Hy | apply IH, Hs].
Qed.

Lemma last_char_nonempty (c : ascii) (s : string) :
  exists x, last_char (String c s) = Some x.
Proof.
  revert c. induction s as [| y s IH]; intros c; [by exists c |].
  destruct (IH y) as [x Hx]. exists x. exact Hx.
Qed.

Lemma app_empty_r (s : string) : s +:+ "" = s.
Proof.
  induction s as [| c s IH]; [reflexivity |].
  change (String c s +:+ "") with (String c (s +:+ "")). rewrite IH.
  reflexivity.
Qed.

End Strings.

Lemma length_utf8_point (c : N) : 1 <= String.length (utf8_point c).
Proof.
  unfold utf8_point.
  destruct (c <? 128)%N; [cbn; lia |].
  destruct (c <? 2048)%N; [cbn; lia |].
  destruct (c <? 65536)%N; cbn; lia.
Qed.

Lemma length_utf8_encode (cs : list N) :
  length cs <= String.length (utf8_encode cs).
Proof.
  induction cs as [| c r IH]; [cbn; lia |].
  cbn [utf8_encode length]. rewrite length_app_str.
  pose proof (length_utf8_point c). lia.
Qed.

Lemma text_len_to_str (t : Text) : text_len t <= String.length (to_str t).
Proof. destruct t as [s | cs]; [cbn; lia | apply length_utf8_encode]. Qed.

Lemma text_len_take (n : nat) (t : Text) :
  text_len (text_take n t) = Nat.min n (text_len t).
Proof.
  destruct t as [s | cs]; cbn.
  - apply length_take_str.
  - rewrite length_take. reflexivity.
Qed.

Lemma ascii_decode_length (s : string) (l : list N) :
  ascii_decode s = inr l -> length l = String.length s.
Proof.
  unfold ascii_decode.
  destruct (forallb _ _); [| discriminate]. intros [= <-].
  rewrite length_map. clear. induction s as [| c r IH]; cbn; congruence.
Qed.

Lemma format_ss_length (a b r : Text) :
  format_ss a b = inr r -> text_len r = text_len a + text_len b.
Proof.
  destruct a as [x | x], b as [y | y]; cbn [format_ss].
  - intros [= <-]. cbn. apply length_app_str.
  - destruct (ascii_decode x) as [e | x'] eqn:Hx; [discriminate |].
    intros [= <-]. cbn. rewrite length_app, (ascii_decode_length _ _ Hx).
    reflexivity.
  - destruct (ascii_decode y) as [e | y'] eqn:Hy; [discriminate |].
    intros [= <-]. cbn. rewrite length_app, (ascii_decode_length _ _ Hy).
    reflexivity.
  - intros [= <-]. cbn. apply length_app.
Qed.

(** X12: [crop] with a suffix no longer than the width, on a [str] or a
    [unicode] text.  A text whose [to_str] form is within the width is
    returned unchanged.  Any other text is replaced by its first
    [width - len(suffix)] characters followed by the suffix.  Whatever is
    returned has at most [width] characters; a cropped byte string has
    exactly [width], a cropped [unicode] text can have fewer, its cut being
    decided on the encoded length.  On byte strings nothing raises. *)
Theorem crop_fits (text suffix : Text) (width : Z) :
  (Z.of_nat (text_len suffix) <= width)%Z ->
  ((Z.of_nat (String.length (to_str text)) <= width)%Z ->
     crop_text text width suffix = inr text)
  /\ ((width < Z.of_nat (String.length (to_str text)))%Z ->
        crop_text text width suffix
        = format_ss
            (text_take (Z.to_nat (width - Z.of_nat (text_len suffix))) text)
            suffix)
  /\ (forall r, crop_text text width suffix = inr r ->
        (Z.of_nat (text_len r) <= width)%Z
        /\ ((width < Z.of_nat (String.length (to_str text)))%Z ->
              Z.of_nat (text_len r)
              = (Z.min (Z.of_nat (text_len text))
                   (width - Z.of_nat (text_len suffix))
                 + Z.of_nat (text_len suffix))%Z
              /\ (forall s, text = Str s -> Z.of_nat (text_len r) = width)))
  /\ (forall t s, text = Str t -> suffix = Str s ->
        crop_text text width suffix = inr (Str (crop t width s))).
Proof.
  intros Hs.
  assert (Hcut : (width < Z.of_nat (String.length (to_str text)))%Z ->
            crop_text text width suffix
            = format_ss
                (text_take (Z.to_nat (width - Z.of_nat (text_len suffix)))
                   text) suffix).
  { intros Hw. unfold crop_text, text_slice_to.
    destruct (Z.leb_spec (Z.of_nat (String.length (to_str text))) width);
      [lia |].
    destruct (Z.ltb_spec (width - Z.of_nat (text_len suffix)) 0); [lia |].
    reflexivity. }
  split; [| split; [exact Hcut | split]].
  - intros Hw. unfold crop_text.
    destruct (Z.leb_spec (Z.of_nat (String.length (to_str text))) width);
      [reflexivity | lia].
  - intros r Hr. pose proof (text_len_to_str text) as Hlen.
    destruct (Z.le_gt_cases (Z.of_nat (String.length (to_str text))) width)
      as [Hw | Hw].
    + unfold crop_text in Hr.
      destruct (Z.leb_spec (Z.of_nat (String.length (to_str text))) width);
        [| lia].
      injection Hr as <-. split; [lia | intros; lia].
    + rewrite (Hcut Hw) in Hr. apply format_ss_length in Hr.
      rewrite text_len_take in Hr. split; [lia |].
      intros _. split; [lia |]. intros s ->. cbn in Hw, Hr |- *. lia.
  - intros t s -> ->. unfold crop_text, crop, text_slice_to, slice_to.
    cbn [to_str text_len text_take format_ss].
    destruct (Z.of_nat (String.length t) <=? width)%Z; reflexivity.
Qed.

Lemma crop_fits_witness :
  ((Z.of_nat (String.length (to_str (Unicode [233; 233; 233; 233]%N))) <= 6)%Z ->
     crop_text (Unicode [233; 233; 233; 233]%N) 6 (Str "..")
     = inr (Unicode [233; 233; 233; 233]%N))
  /\ ((6 < Z.of_nat (String.length (to_str (Unicode [233; 233; 233; 233]%N))))%Z ->
        crop_text (Unicode [233; 233; 233; 233]%N) 6 (Str "..")
        = format_ss
            (text_take (Z.to_nat (6 - Z.of_nat (text_len (Str ".."))))
               (Unicode [233; 233; 233; 233]%N))
            (Str ".."))
  /\ (forall r, crop_text (Unicode [233; 233; 233; 233]%N) 6 (Str "..") = inr r ->
        (Z.of_nat (text_len r) <= 6)%Z
        /\ ((6 < Z.of_nat (String.length (to_str (Unicode [233; 233; 233; 233]%N))))%Z ->
              Z.of_nat (text_len r)
              = (Z.min (Z.of_nat (text_len (Unicode [233; 233; 233; 233]%N)))
                   (6 - Z.of_nat (text_len (Str "..")))
                 + Z.of_nat (text_len (Str "..")))%Z
              /\ (forall s, Unicode [233; 233; 233; 233]%N = Str s ->
                    Z.of_nat (text_len r) = 6%Z)))
  /\ (forall t s, Unicode [233; 233; 233; 233]%N = Str t -> Str ".." = Str s ->
        crop_text (Unicode [233; 233; 233; 233]%N) 6 (Str "..")
        = inr (Str (crop t 6 s))).
Proof.
  apply (crop_fits (Unicode [233; 233; 233; 233]%N) (Str "..") 6).
  vm_compute. discriminate.
Defined.

(** A [unicode] text of four characters and eight bytes, cropped to six:
    nothing is cut, yet the suffix is added; and the same text within a
    width of eight is returned as it is. *)
Example crop_unicode_uncut :
  crop_text (Unicode [233; 233; 233; 233]%N) 6 (Str "..")
  = inr (Unicode [233; 233; 233; 233; 46; 46]%N)
  /\ crop_text (Unicode [233; 233; 233; 233]%N) 8 (Str "..")
     = inr (Unicode [233; 233; 233; 233]%N)
  /\ crop_text (Str "a long line of text") 10 (Str "[...]")
     = inr (Str "a lon[...]")
  /\ crop_text (Str "short") 10 (Str "[...]") = inr (Str "short").
Proof. repeat split; vm_compute; reflexivity. Qed.

(** X13: when the width is smaller than the suffix, a text longer than the
    width is never brought within it: the result of [crop] is longer than
    [width] (the negative slice bound counts from the end of the text). *)
Theorem crop_overlong_suffix (text : string) (width : Z) (suffix : string) :
  (width < Z.of_nat (String.length suffix))%Z ->
  (width < Z.of_nat (String.length text))%Z ->
  (width < Z.of_nat (String.length (crop text width suffix)))%Z
  /\ Z.of_nat (String.length (crop text width suffix))
     = Z.max (Z.of_nat (String.length suffix))
             (Z.of_nat (String.length text) + width).
Proof.
  intros Hs Ht. unfold crop.
  destruct (Z.leb_spec (Z.of_nat (String.length text)) width); [lia |].
  unfold slice_to.
  destruct (Z.ltb_spec (width - Z.of_nat (String.length suffix)) 0); [| lia].
  rewrite length_app_str, length_take_str. lia.
Qed.

Lemma crop_overlong_suffix_witness :
  (3 < Z.of_nat (String.length (crop "abcdefghij" 3 "[...]")))%Z
  /\ Z.of_nat (String.length (crop "abcdefghij" 3 "[...]"))
     = Z.max (Z.of_nat (String.length "[...]"))
             (Z.of_nat (String.length "abcdefghij") + 3).
Proof. apply crop_overlong_suffix; vm_compute; reflexivity. Defined.

(** X14: a text without [*] and [?] is copied into the pattern as it is,
    no character being escaped: alone it is anchored at both ends, and
    between two asterisks it is anchored at neither. *)
Theorem wildcard_free_text_is_verbatim (s : string) :
  has_char "*" s = false -> has_char "?" s = false ->
  (s <> "" -> wildcard_to_regexp s = inr ("^" +:+ s +:+ "$"))
  /\ wildcard_to_regexp ("*" +:+ s +:+ "*") = inr ("(.*)" +:+ s +:+ "(.*)").
Proof.
  intros Hstar Hq. split.
  - intros Hne. unfold wildcard_to_regexp.
    destruct s as [| c s]; [destruct (Hne eq_refl) |]. cbn [first_char].
    pose proof Hstar as Hc. cbn [has_char] in Hc.
    apply orb_false_elim in Hc as [Hc _]. rewrite Hc. cbn [negb].
    destruct (last_char_nonempty c s) as [x Hx]. rewrite Hx.
    rewrite (last_char_absent _ _ _ Hstar Hx). cbn [negb].
    rewrite (replace_char_absent _ _ _ Hstar), (replace_char_absent _ _ _ Hq).
    reflexivity.
  - unfold wildcard_to_regexp.
    change ("*" +:+ s +:+ "*") with (String "*" s +:+ String "*" "").
    rewrite last_char_app.
    change (String "*" s +:+ String "*" "") with (String "*" (s +:+ "*")).
    cbn [first_char].
    replace (Ascii.eqb "*" "*") with true by reflexivity. cbn [negb].
    change (String "*" (s +:+ "*")) with ("*" +:+ (s +:+ "*")).
    rewrite !replace_char_app.
    rewrite (replace_char_absent "*" _ s Hstar),
      (replace_char_absent "?" _ s Hq).
    reflexivity.
Qed.

Lemma wildcard_free_text_is_verbatim_witness :
  ("a.b" <> "" -> wildcard_to_regexp "a.b" = inr ("^" +:+ "a.b" +:+ "$"))
  /\ wildcard_to_regexp ("*" +:+ "a.b" +:+ "*")
     = inr ("(.*)" +:+ "a.b" +:+ "(.*)").
Proof. apply wildcard_free_text_is_verbatim; reflexivity. Defined.

(** X15: whatever [dbref] returns other than [None] is an integer of at
    least 1, read from a string once its leading [#] characters are
    dropped; with [reqhash] the string starts with [#].  Anything that is
    not a string, an integer included, gives [None] with either value of
    [reqhash]. *)
Theorem dbref_valid (py_int : string -> option Z) (ref : Value)
    (reqhash : bool) (n : Z) :
  dbref py_int ref reqhash = Some n ->
  (1 <= n)%Z
  /\ exists s, ref = VStr s
               /\ py_int (lstrip_char "#" s) = Some n
               /\ (reqhash = true -> startswith s "#" = true).
Proof.
  unfold dbref. intros H.
  destruct ref; try (destruct reqhash; discriminate H).
  destruct (reqhash && negb (startswith s "#")) eqn:Hg; [discriminate |].
  destruct (py_int (lstrip_char "#" s)) as [m |] eqn:Hm; [| discriminate].
  destruct (Z.ltb_spec m 1); [discriminate |]. injection H as <-.
  split; [lia |]. exists s. repeat split; [exact Hm |].
  intros ->. cbn in Hg. apply negb_false_iff in Hg. exact Hg.
Qed.

Lemma dbref_valid_witness :
  (1 <= 42)%Z
  /\ exists s, VStr "#42" = VStr s
               /\ read_number (lstrip_char "#" s) = Some 42%Z
               /\ (true = true -> startswith s "#" = true).
Proof. apply (dbref_valid read_number (VStr "#42") true 42). reflexivity. Defined.

Lemma lstrip_char_idem (c : ascii) (s : string) :
  lstrip_char c (lstrip_char c s) = lstrip_char c s.
Proof.
  induction s as [| x s IH]; [reflexivity |]. cbn [lstrip_char].
  destruct (Ascii.eqb x c) eqn:E; [exact IH |]. cbn [lstrip_char].
  rewrite E. reflexivity.
Qed.

(** X16: a leading [#] is all that [reqhash] asks for: on a string that
    starts with [#], [dbref] with [reqhash] set answers what it answers,
    with [reqhash] cleared, on the string without its leading [#]
    characters, however many there are. *)
Theorem dbref_hash_prefix (py_int : string -> option Z) (s : string) :
  startswith s "#" = true ->
  dbref py_int (VStr s) true
  = dbref py_int (VStr (lstrip_char "#" s)) false.
Proof.
  intros H. unfold dbref. rewrite H. cbn [negb andb].
  rewrite lstrip_char_idem. reflexivity.
Qed.

Lemma dbref_hash_prefix_witness :
  dbref read_number (VStr "##7") true
  = dbref read_number (VStr (lstrip_char "#" "##7")) false.
Proof. apply dbref_hash_prefix. reflexivity. Defined.

(** * Properties of [time_format] *)

Example time_format_styles :
  time_format 117010 0 = inr "1d 08:30"
  /\ time_format 117010 1 = inr "1d"
  /\ time_format 117010 3 = inr "1 day, 8 hours, 30 minutes 10 seconds "
  /\ time_format 3600 2 = inr "1 hour, 0 minutes ".
Proof. vm_compute. repeat split. Qed.

Lemma fmt_02i_two_digits (n : Z) :
  (0 <= n < 100)%Z -> String.length (fmt_02i n) = 2.
Proof.
  intros Hn.
  assert (Hall : forallb (fun k => Nat.eqb (String.length (fmt_02i (Z.of_nat k))) 2)
                   (seq 0 100) = true) by (vm_compute; reflexivity).
  rewrite forallb_forall in Hall.
  specialize (Hall (Z.to_nat n)). rewrite Z2Nat.id in Hall by lia.
  apply Nat.eqb_eq, Hall, in_seq. lia.
Qed.

(** X17: [time_format] returns a string for the styles 0, 1, 2 and 3 and
    raises [UnboundLocalError] for every other style, whatever the number
    of seconds. *)
Theorem time_format_unknown_style (seconds style : Z) :
  time_format seconds style = inl UnboundLocalError
  <-> (style < 0 \/ 3 < style)%Z.
Proof.
  unfold time_format.
  destruct (Z.eqb_spec style 0); [split; [discriminate | lia] |].
  destruct (Z.eqb_spec style 1); [split; [discriminate | lia] |].
  destruct (Z.eqb_spec style 2); [split; [discriminate | lia] |].
  destruct (Z.eqb_spec style 3); [split; [discriminate | lia] |].
  split; [lia | reflexivity].
Qed.

(** X18: in style 0 a time of less than a day is printed as a clock of
    exactly five characters, [HH:MM], with the hours below 24 and the
    minutes below 60. *)
Theorem time_format_clock (seconds : Z) :
  (0 <= seconds < 86400)%Z ->
  exists h m : Z,
    time_format seconds 0 = inr (fmt_02i h +:+ ":" +:+ fmt_02i m)
    /\ (seconds = 3600 * h + 60 * m + seconds mod 60)%Z
    /\ (0 <= h < 24)%Z /\ (0 <= m < 60)%Z
    /\ String.length (fmt_02i h +:+ ":" +:+ fmt_02i m) = 5.
Proof.
  intros Hs. exists (seconds / 3600)%Z, ((seconds mod 3600) / 60)%Z.
  assert (Hh : (0 <= seconds / 3600 < 24)%Z)
    by (Z.div_mod_to_equations; lia).
  assert (Hm : (0 <= (seconds mod 3600) / 60 < 60)%Z)
    by (Z.div_mod_to_equations; lia).
  split; [| split; [| split; [exact Hh | split; [exact Hm |]]]].
  - unfold time_format.
    destruct (Z.ltb_spec seconds 0); [lia |].
    replace (seconds / 86400)%Z with 0%Z by (Z.div_mod_to_equations; lia).
    cbn [Z.eqb Z.gtb Z.compare].
    replace (seconds - 0 * 86400)%Z with seconds by lia.
    replace ((seconds - seconds / 3600 * 3600) / 60)%Z
      with ((seconds mod 3600) / 60)%Z
      by (f_equal; Z.div_mod_to_equations; lia).
    reflexivity.
  - Z.div_mod_to_equations. lia.
  - rewrite !length_app_str, !fmt_02i_two_digits by lia. reflexivity.
Qed.

Lemma time_format_clock_witness :
  exists h m : Z,
    time_format 30600 0 = inr (fmt_02i h +:+ ":" +:+ fmt_02i m)
    /\ (30600 = 3600 * h + 60 * m + 30600 mod 60)%Z
    /\ (0 <= h < 24)%Z /\ (0 <= m < 60)%Z
    /\ String.length (fmt_02i h +:+ ":" +:+ fmt_02i m) = 5.
Proof. apply time_format_clock. lia. Defined.

(** X19: the styles 0 and 2 do not look at the seconds within the
    minute: a time and the same time rounded down to the minute are printed
    alike (and every negative time like zero). *)
Theorem time_format_ignores_seconds (seconds : Z) :
  time_format seconds 0 = time_format (60 * (seconds / 60)) 0
  /\ time_format seconds 2 = time_format (60 * (seconds / 60)) 2
  /\ ((seconds < 0)%Z ->
      forall style, time_format seconds style = time_format 0 style).
Proof.
  assert (Hneg : (seconds < 0)%Z ->
                 forall style, time_format seconds style = time_format 0 style).
  { intros Hs style. unfold time_format.
    destruct (Z.ltb_spec seconds 0); [reflexivity | lia]. }
  assert (H02 : forall style, (style = 0 \/ style = 2)%Z ->
            time_format seconds style = time_format (60 * (seconds / 60)) style).
  { intros style Hst. destruct (Z.ltb_spec seconds 0) as [Hs | Hs].
    - assert (Hs' : (60 * (seconds / 60) < 0)%Z)
        by (Z.div_mod_to_equations; lia).
      unfold time_format.
      destruct (Z.ltb_spec seconds 0); [| lia].
      destruct (Z.ltb_spec (60 * (seconds / 60)) 0); [| lia].
      reflexivity.
    - assert (Hs' : (0 <= 60 * (seconds / 60))%Z)
        by (Z.div_mod_to_equations; lia).
      assert (Hd : ((60 * (seconds / 60)) / 86400 = seconds / 86400)%Z)
        by (Z.div_mod_to_equations; lia).
      assert (Hh : ((60 * (seconds / 60) - seconds / 86400 * 86400) / 3600
                    = (seconds - seconds / 86400 * 86400) / 3600)%Z)
        by (Z.div_mod_to_equations; lia).
      assert (Hm : ((60 * (seconds / 60) - seconds / 86400 * 86400
                     - (seconds - seconds / 86400 * 86400) / 3600 * 3600) / 60
                    = (seconds - seconds / 86400 * 86400
                       - (seconds - seconds / 86400 * 86400) / 3600 * 3600)
                      / 60)%Z)
        by (Z.div_mod_to_equations; lia).
      unfold time_format.
      destruct (Z.ltb_spec seconds 0); [lia |].
      destruct (Z.ltb_spec (60 * (seconds / 60)) 0); [lia |].
      rewrite Hd, Hh, Hm. destruct Hst as [-> | ->]; reflexivity. }
  split; [apply H02; lia |]. split; [apply H02; lia | exact Hneg].
Qed.

(** X20: in style 2 a time of less than a minute, negative times
    included, is printed as the empty string. *)
Theorem time_format_under_a_minute (seconds : Z) :
  (seconds < 60)%Z -> time_format seconds 2 = inr "".
Proof.
  intros Hs. unfold time_format.
  destruct (Z.ltb_spec seconds 0); [reflexivity |].
  replace (seconds / 86400)%Z with 0%Z by (Z.div_mod_to_equations; lia).
  replace (seconds - 0 * 86400)%Z with seconds by lia.
  replace (seconds / 3600)%Z with 0%Z by (Z.div_mod_to_equations; lia).
  replace (seconds - 0 * 3600)%Z with seconds by lia.
  replace (seconds / 60)%Z with 0%Z by (Z.div_mod_to_equations; lia).
  reflexivity.
Qed.

Lemma time_format_under_a_minute_witness : time_format 59 2 = inr "".
Proof. apply time_format_under_a_minute. lia. Defined.

(** * Properties of [string_partial_matching] *)

Section PartialMatching.

Lemma startswith_refl (s : string) : startswith s s = true.
Proof.
  induction s as [| c s IH]; [reflexivity |]. cbn [startswith].
  rewrite Ascii.eqb_refl. exact IH.
Qed.

Lemma embeds_nil (l : list string) : embeds [] l = true.
Proof. destruct l; reflexivity. Qed.

Lemma embeds_weaken (ws : list string) (a : string) (l : list string) :
  embeds ws l = true -> embeds ws (a :: l) = true.
Proof.
  destruct ws as [| w ws]; [reflexivity |]. cbn [embeds]. intros ->.
  apply orb_true_r.
Qed.

Lemma embeds_tail (w : string) (ws l : list string) :
  embeds (w :: ws) l = true -> embeds ws l = true.
Proof.
  induction l as [| a l IH]; [discriminate |]. cbn [embeds]. intros H.
  apply orb_prop in H as [H | H].
  - apply andb_prop in H as [_ H]. apply embeds_weaken, H.
  - apply embeds_weaken, IH, H.
Qed.

(** Taking the first word that fits loses nothing. *)
Lemma embeds_greedy (w : string) (ws : list string) (a : string)
    (l : list string) :
  startswith a w = true -> embeds (w :: ws) (a :: l) = embeds ws l.
Proof.
  intros Hs. cbn [embeds]. rewrite Hs. cbn [andb].
  destruct (embeds ws l) eqn:E; [reflexivity |]. cbn [orb].
  destruct (embeds (w :: ws) l) eqn:E2; [| reflexivity].
  apply embeds_tail in E2. congruence.
Qed.

Lemma embeds_refl (l : list string) : embeds l l = true.
Proof.
  induction l as [| a l IH]; [reflexivity |]. cbn [embeds].
  rewrite startswith_refl, IH. reflexivity.
Qed.

Lemma Forall_filter_bool {A} (P : A -> Prop) (f : A -> bool) (l : list A) :
  Forall P l -> Forall P (List.filter f l).
Proof.
  induction 1 as [| x xs Hx _ IH]; [constructor |]. cbn.
  destruct (f x); [constructor |]; assumption.
Qed.

Lemma zip_seq_lower {A} (l : list A) (j : nat) :
  Forall (fun p => j <= fst p) (zip (seq j (length l)) l).
Proof.
  revert j. induction l as [| a l IH]; intros j; [constructor |].
  cbn. constructor; [cbn; lia |].
  eapply Forall_impl; [apply (IH (S j)) |]. cbn. intros p Hp. lia.
Qed.

Lemma list_min_least (m : nat) (ms : list nat) :
  Forall (fun x => m <= x) ms -> list_min m ms = m.
Proof.
  unfold list_min. induction 1 as [| x xs Hx _ IH]; [reflexivity |].
  cbn. rewrite IH. lia.
Qed.

(** The positions at which [w] fits, from position [j] on: either there
    is none, or the first one splits the words. *)
Lemma first_match (w : string) (ws l : list string) (j : nat) :
  (List.filter (fun p => startswith (snd p) w) (zip (seq j (length l)) l) = []
   /\ embeds (w :: ws) l = false)
  \/ exists (k : nat) (a : string) (rest : list (nat * string)),
       List.filter (fun p => startswith (snd p) w) (zip (seq j (length l)) l)
       = (j + k, a) :: rest
       /\ Forall (fun p => j + k <= fst p) rest
       /\ embeds (w :: ws) l = embeds ws (drop (S k) l).
Proof.
  revert j. induction l as [| a l IH]; intros j; [left; split; reflexivity |].
  cbn [length seq]. change (zip (j :: seq (S j) (length l)) (a :: l))
    with ((j, a) :: zip (seq (S j) (length l)) l).
  cbn [List.filter snd]. destruct (startswith a w) eqn:Ha.
  - right. exists 0, a,
      (List.filter (fun p => startswith (snd p) w) (zip (seq (S j) (length l)) l)).
    rewrite Nat.add_0_r. split; [reflexivity |]. split.
    + apply Forall_filter_bool. eapply Forall_impl; [apply zip_seq_lower |].
      cbn. intros p Hp. lia.
    + rewrite (embeds_greedy _ _ _ _ Ha). reflexivity.
  - assert (Hskip : embeds (w :: ws) (a :: l) = embeds (w :: ws) l)
      by (cbn [embeds]; rewrite Ha; reflexivity).
    destruct (IH (S j)) as [[HF He] | (k & b & rest & HF & Hrest & He)].
    + left. split; [exact HF | rewrite Hskip; exact He].
    + right. exists (S k), b, rest.
      replace (j + S k) with (S j + k) by lia.
      split; [exact HF |]. split; [exact Hrest |].
      rewrite Hskip, He. reflexivity.
Qed.

(** The score of an alternative is all or nothing. *)
Lemma score_words_embeds (alt_words inp_words : list string)
    (last_index score : nat) :
  score_words alt_words inp_words last_index score
  = if embeds inp_words (drop last_index alt_words)
    then score + length inp_words else 0.
Proof.
  revert last_index score.
  induction inp_words as [| w ws IH]; intros li sc.
  - rewrite embeds_nil. cbn. lia.
  - cbn [score_words]. unfold submatch, enumerate.
    destruct (first_match w ws (drop li alt_words) 0)
      as [[HF He] | (k & a & rest & HF & Hrest & He)].
    + rewrite HF, He. reflexivity.
    + rewrite HF, He. cbn [map fst].
      rewrite list_min_least.
      * rewrite IH, drop_drop.
        replace (li + S k) with (li + (0 + k) + 1) by lia.
        change (length (w :: ws)) with (S (length ws)).
        destruct (embeds ws (drop (li + (0 + k) + 1) alt_words)); lia.
      * apply Forall_map. eapply Forall_impl; [exact Hrest |].
        cbn. intros p Hp. lia.
Qed.

Variables (inp_words : list string) (ret_index : bool).
Hypothesis inp_words_nonempty : inp_words <> [].

(** One turn of the loop over the alternatives. *)
Local Abbreviation turn :=
  (fun (matches : gmap nat (list Value)) (p : nat * string) =>
     let '(altindex, alt) := p in
     let alt_words := String.words (lower alt) in
     let score := score_words alt_words inp_words 0 0 in
     if negb (Nat.eqb score 0) then
       <[score := default [] (matches !! score)
                  ++ [if ret_index then VInt (Z.of_nat altindex)
                      else VStr alt]]> matches
     else matches).

Local Abbreviation fits :=
  (fun p : nat * string => embeds inp_words (String.words (lower (snd p)))).

Lemma one_score_snoc (n : nat) (items : list Value) (x : Value) :
  <[n := default [] (one_score n items !! n) ++ [x]]> (one_score n items)
  = one_score n (items ++ [x]).
Proof.
  destruct items as [| y items].
  - cbn. rewrite lookup_empty. cbn. apply insert_empty.
  - cbn [one_score app]. rewrite lookup_singleton_eq. cbn [default].
    apply insert_singleton_eq.
Qed.

Lemma turns_collect (l : list string) (j : nat) (items : list Value) :
  foldl turn (one_score (length inp_words) items) (zip (seq j (length l)) l)
  = one_score (length inp_words)
      (items ++ map (match_item ret_index)
                    (List.filter fits (zip (seq j (length l)) l))).
Proof.
  revert j items. induction l as [| a l IH]; intros j items.
  - cbn. rewrite app_nil_r. reflexivity.
  - cbn [length seq]. change (zip (j :: seq (S j) (length l)) (a :: l))
      with ((j, a) :: zip (seq (S j) (length l)) l).
    cbn [foldl List.filter snd]. rewrite score_words_embeds, drop_0.
    destruct (embeds inp_words (String.words (lower a))).
    + assert (Hn : Nat.eqb (length inp_words) 0 = false).
      { destruct inp_words; [destruct (inp_words_nonempty eq_refl) |].
        reflexivity. }
      cbn [map Nat.add]. rewrite Hn. cbn [negb].
      rewrite one_score_snoc, IH, <- app_assoc. reflexivity.
    + cbn [Nat.eqb negb]. apply IH.
Qed.

Lemma one_score_best (n : nat) (items : list Value) :
  match map fst (map_to_list (one_score n items)) with
  | [] => []
  | k :: ks => default [] (one_score n items !! foldr Nat.max k ks)
  end = items.
Proof.
  destruct items as [| y items].
  - cbn [one_score]. rewrite map_to_list_empty. reflexivity.
  - cbn [one_score]. rewrite map_to_list_singleton. cbn [map fst foldr].
    rewrite lookup_singleton_eq. reflexivity.
Qed.

End PartialMatching.

Lemma turns_without_words (ret_index : bool) (l : list (nat * string)) :
  foldl (fun (matches : gmap nat (list Value)) (p : nat * string) =>
           let '(altindex, alt) := p in
           let alt_words := String.words (lower alt) in
           let score := score_words alt_words [] 0 0 in
           if negb (Nat.eqb score 0) then
             <[score := default [] (matches !! score)
                        ++ [if ret_index then VInt (Z.of_nat altindex)
                            else VStr alt]]> matches
           else matches) ∅ l
  = ∅.
Proof. induction l as [| [i a] l IH]; [reflexivity | exact IH]. Qed.

Lemma enumerate_lookup {A} (l : list A) (j i : nat) (a : A) :
  l !! i = Some a -> In (j + i, a) (zip (seq j (length l)) l).
Proof.
  revert j i. induction l as [| x l IH]; intros j i; [discriminate |].
  destruct i as [| i]; cbn.
  - intros [= ->]. left. f_equal. lia.
  - intros H. right. replace (j + S i) with (S j + i) by lia. apply IH, H.
Qed.

(** X21: the score never ranks the matches.  When the input has at least
    one word, [string_partial_matching] returns, in the order of the
    alternatives, exactly those in which the words of the input, lower-cased,
    occur in order, each as the beginning of a different word: by position
    with [ret_index], by text without. *)
Theorem partial_matching_is_all_or_nothing (alternatives : list string)
    (inp : string) (ret_index : bool) :
  String.words (lower inp) <> [] ->
  string_partial_matching alternatives inp ret_index
  = map (match_item ret_index)
        (List.filter
           (fun p => embeds (String.words (lower inp))
                            (String.words (lower (snd p))))
           (enumerate alternatives)).
Proof.
  intros Hw. unfold string_partial_matching.
  destruct alternatives as [| a alts]; [reflexivity |].
  cbn [length Nat.eqb orb].
  destruct (String.eqb_spec inp "") as [-> | _]; [destruct (Hw eq_refl) |].
  unfold enumerate.
  pose proof (turns_collect _ ret_index Hw (a :: alts) 0 []) as Hc.
  cbn [app] in Hc. change (one_score _ []) with (∅ : gmap nat (list Value)) in Hc.
  rewrite Hc. apply one_score_best.
Qed.

Lemma partial_matching_is_all_or_nothing_witness :
  string_partial_matching ["Big shiny sword"; "big axe"; "Shield"] "bi sh" true
  = map (match_item true)
        (List.filter
           (fun p => embeds (String.words (lower "bi sh"))
                            (String.words (lower (snd p))))
           (enumerate ["Big shiny sword"; "big axe"; "Shield"])).
Proof.
  apply partial_matching_is_all_or_nothing. vm_compute. discriminate.
Defined.

Example partial_matching_docstring :
  string_partial_matching ["Big shiny sword"; "big axe"; "Shield"] "bi sh sw" true
  = [VInt 0]
  /\ string_partial_matching ["Big shiny sword"; "big axe"; "Shield"] "sh" false
     = [VStr "Big shiny sword"; VStr "Shield"]
  /\ string_partial_matching ["Big shiny sword"; "big axe"; "Shield"] "sw bi" true
     = [].
Proof. vm_compute. repeat split. Qed.

(** X22: an input without any word (empty, or white space only) matches
    nothing, whatever the alternatives. *)
Theorem partial_matching_without_words (alternatives : list string)
    (inp : string) (ret_index : bool) :
  String.words (lower inp) = [] ->
  string_partial_matching alternatives inp ret_index = [].
Proof.
  intros Hw. unfold string_partial_matching.
  destruct (Nat.eqb (length alternatives) 0 || String.eqb inp "");
    [reflexivity |].
  rewrite Hw, turns_without_words, map_to_list_empty. reflexivity.
Qed.

Lemma partial_matching_without_words_witness :
  string_partial_matching ["Big shiny sword"] "  " true = [].
Proof. apply partial_matching_without_words. reflexivity. Defined.

(** X23: an alternative that has at least one word is always among the
    matches of its own text. *)
Theorem partial_matching_finds_itself (alternatives : list string)
    (i : nat) (alt : string) :
  alternatives !! i = Some alt ->
  String.words (lower alt) <> [] ->
  In (VInt (Z.of_nat i)) (string_partial_matching alternatives alt true).
Proof.
  intros Hi Hw. unfold string_partial_matching.
  destruct alternatives as [| a alts]; [discriminate |].
  cbn [length Nat.eqb orb].
  destruct (String.eqb_spec alt "") as [-> | _]; [destruct (Hw eq_refl) |].
  unfold enumerate.
  pose proof (turns_collect _ true Hw (a :: alts) 0 []) as Hc.
  cbn [app] in Hc. change (one_score _ []) with (∅ : gmap nat (list Value)) in Hc.
  rewrite Hc, one_score_best.
  apply in_map_iff. exists (i, alt). split; [reflexivity |].
  apply filter_In. split.
  - apply (enumerate_lookup (a :: alts) 0 i alt Hi).
  - apply embeds_refl.
Qed.

Lemma partial_matching_finds_itself_witness :
  In (VInt (Z.of_nat 1))
     (string_partial_matching ["Big shiny sword"; "big axe"] "big axe" true).
Proof.
  apply partial_matching_finds_itself; [reflexivity |].
  vm_compute. discriminate.
Defined.

(** * Properties of [format_table] *)

Section Tables.

Lemma mapE_Forall2 {A B} (f : A -> PyError + B) (l : list A) (ys : list B) :
  mapE f l = inr ys <-> Forall2 (fun x y => f x = inr y) l ys.
Proof.
  revert ys. induction l as [| x xs IH]; intros ys; cbn [mapE].
  - split; [intros [= <-]; constructor | intros H; inversion H; reflexivity].
  - split.
    + destruct (f x) as [e | y] eqn:Hx; [discriminate |].
      destruct (mapE f xs) as [e | ys'] eqn:Hxs; [discriminate |].
      intros [= <-]. constructor; [exact Hx | apply IH; reflexivity].
    + intros H. inversion H as [| ? y ? ys' Hx Hxs]; subst.
      rewrite Hx. apply IH in Hxs. rewrite Hxs. reflexivity.
Qed.

Lemma mapE_total {A B} (f : A -> PyError + B) (l : list A) :
  (forall x, In x l -> exists y, f x = inr y) -> exists ys, mapE f l = inr ys.
Proof.
  induction l as [| x xs IH]; intros H; [by exists [] |].
  destruct (H x (or_introl eq_refl)) as [y Hy].
  destruct IH as [ys Hys]; [intros z Hz; apply H; right; exact Hz |].
  exists (y :: ys). cbn [mapE]. rewrite Hy, Hys. reflexivity.
Qed.

Lemma mapE_error {A B} (f : A -> PyError + B) (l : list A) (e : PyError) :
  mapE f l = inl e -> exists x, In x l /\ f x = inl e.
Proof.
  induction l as [| x xs IH]; [discriminate |]. cbn [mapE].
  destruct (f x) as [e' | y] eqn:Hx.
  - intros [= <-]. exists x. split; [left; reflexivity | exact Hx].
  - destruct (mapE f xs) as [e' | ys]; [| discriminate].
    intros [= <-]. destruct (IH eq_refl) as [z [Hz Hfz]].
    exists z. split; [right; exact Hz | exact Hfz].
Qed.

Lemma foldr_max_from (n : nat) (ns : list nat) :
  foldr Nat.max n ns = Nat.max n (max_list ns).
Proof. induction ns as [| x xs IH]; cbn; lia. Qed.

Lemma max_len_nonempty (col : list string) :
  col <> [] -> max_len col = inr (max_list (map String.length col)).
Proof.
  destruct col as [| v col]; [intros H; destruct (H eq_refl) |]. intros _.
  unfold max_len. cbn [map]. rewrite foldr_max_from. reflexivity.
Qed.

Lemma length_spaces (n : nat) : String.length (spaces n) = n.
Proof. induction n as [| n IH]; [reflexivity |]. cbn. rewrite IH. reflexivity. Qed.

Lemma startswith_app (a b : string) : startswith (a +:+ b) a = true.
Proof.
  induction a as [| c a IH]; [reflexivity |].
  change (String c a +:+ b) with (String c (a +:+ b)). cbn [startswith].
  rewrite Ascii.eqb_refl. exact IH.
Qed.

Lemma enumerate_at {A} (l : list A) (j c : nat) (x : A) :
  l !! c = Some x -> zip (seq j (length l)) l !! c = Some (j + c, x).
Proof.
  revert j c. induction l as [| y l IH]; intros j c; [discriminate |].
  destruct c as [| c]; cbn.
  - intros [= ->]. do 2 f_equal. lia.
  - intros H. replace (j + S c) with (S j + c) by lia. apply IH, H.
Qed.

Lemma enumerate_member {A} (l : list A) (j c : nat) (x : A) :
  In (c, x) (zip (seq j (length l)) l) -> In x l.
Proof.
  revert j. induction l as [| y l IH]; intros j; [intros []|].
  cbn. intros [[= _ ->] | H]; [left; reflexivity | right; apply (IH _ H)].
Qed.

Lemma length_enumerate {A} (l : list A) : length (enumerate l) = length l.
Proof.
  unfold enumerate. rewrite length_zip_with, length_seq. lia.
Qed.

End Tables.

(** X24: a table that has an empty column cannot be formatted: [max] of
    an empty list raises [ValueError].  That includes the table made of
    empty columns only, while the empty table gives [[[]]]. *)
Theorem format_table_empty_column (table : list (list string))
    (extra_space : Z) :
  In [] table -> format_table table extra_space = inl ValueError.
Proof.
  intros Hin. unfold format_table.
  destruct table as [| first rest]; [destruct Hin |].
  destruct (mapE max_len (first :: rest)) as [e | widths] eqn:Hm.
  - apply mapE_error in Hm as [col [_ Hcol]]. unfold max_len in Hcol.
    destruct (map String.length col); [| discriminate].
    injection Hcol as <-. reflexivity.
  - apply mapE_Forall2 in Hm. apply list_elem_of_In in Hin.
    apply list_elem_of_lookup in Hin as [i Hi].
    destruct (Forall2_lookup_l _ _ _ _ _ Hm Hi) as [w [_ Hw]].
    discriminate Hw.
Qed.

Lemma format_table_empty_column_witness :
  format_table [["a"; "b"]; []] 1 = inl ValueError.
Proof. apply format_table_empty_column. right. left. reflexivity. Defined.

(** X25: when no column is empty and none is shorter than the first, the
    table is formatted into as many rows as the first column has entries,
    each row with one cell per column; the cell of row [r] and column [c]
    starts with the entry it stands for and is as wide as the longest entry
    of the whole column plus [extra_space], so that the cells of a column
    all have the same width. *)
Theorem format_table_aligned (first : list string) (rest : list (list string))
    (extra_space : Z) :
  Forall (fun col => col <> []) (first :: rest) ->
  Forall (fun col => length first <= length col) rest ->
  exists rows,
    format_table (first :: rest) extra_space = inr rows
    /\ length rows = length first
    /\ forall r row, rows !! r = Some row ->
         length row = length (first :: rest)
         /\ forall c col, (first :: rest) !! c = Some col ->
              exists val cell,
                col !! r = Some val /\ row !! c = Some cell
                /\ startswith cell val = true
                /\ String.length cell
                   = max_list (map String.length col) + Z.to_nat extra_space.
Proof.
  intros Hne Hlen.
  assert (Hlen' : Forall (fun col => length first <= length col) (first :: rest))
    by (constructor; [lia | exact Hlen]).
  set (widths := map (fun col => max_list (map String.length col)) (first :: rest)).
  assert (Hw : mapE max_len (first :: rest) = inr widths).
  { apply mapE_Forall2. subst widths. clear Hlen'.
    induction Hne as [| col cols Hcol _ IH]; [constructor |].
    cbn [map]. constructor; [apply max_len_nonempty, Hcol | exact IH]. }
  set (cell_of := fun (irow : nat) (p : nat * list string) =>
         let '(icol, col) := p in
         match col !! irow with
         | Some val => inr (ljust val (nth icol widths 0)
                            +:+ spaces (Z.to_nat extra_space))
         | None => @inl PyError string IndexError
         end).
  assert (Hrows : exists rows,
            mapE (fun irow => mapE (cell_of irow) (enumerate (first :: rest)))
                 (seq 0 (length first)) = inr rows).
  { apply mapE_total. intros irow Hirow. apply in_seq in Hirow.
    apply mapE_total. intros [c col] Hin.
    apply enumerate_member in Hin. apply list_elem_of_In in Hin.
    rewrite Forall_forall in Hlen'. specialize (Hlen' col Hin).
    destruct (lookup_lt_is_Some_2 col irow) as [val Hval]; [lia |].
    exists (ljust val (nth c widths 0) +:+ spaces (Z.to_nat extra_space)).
    cbn. rewrite Hval. reflexivity. }
  destruct Hrows as [rows Hrows]. exists rows.
  split; [unfold format_table; rewrite Hw; exact Hrows |].
  apply mapE_Forall2 in Hrows.
  split; [rewrite <- (Forall2_length _ _ _ Hrows), length_seq; reflexivity |].
  intros r row Hr.
  destruct (Forall2_lookup_r _ _ _ _ _ Hrows Hr) as [irow [Hirow Hrow]].
  apply lookup_seq in Hirow as [-> Hlt]. cbn [Nat.add] in Hrow.
  apply mapE_Forall2 in Hrow.
  split; [rewrite <- (Forall2_length _ _ _ Hrow); apply length_enumerate |].
  intros c col Hc.
  pose proof (enumerate_at (first :: rest) 0 c col Hc) as He. cbn [Nat.add] in He.
  destruct (Forall2_lookup_l _ _ _ _ _ Hrow He) as [cell [Hcell Hmk]].
  unfold cell_of in Hmk.
  destruct (col !! r) as [val |] eqn:Hval; [| discriminate].
  injection Hmk as <-. exists val. eexists.
  split; [reflexivity |]. split; [exact Hcell |]. split.
  - unfold ljust. rewrite <- app_assoc_str. apply startswith_app.
  - assert (Hnth : nth c widths 0 = max_list (map String.length col)).
    { subst widths. rewrite nth_lookup, list_lookup_fmap, Hc. reflexivity. }
    match goal with
    | |- String.length (ljust val ?w +:+ _) = _ =>
        change w with (nth c widths 0)
    end.
    rewrite Hnth. unfold ljust.
    rewrite !length_app_str, !length_spaces.
    assert (String.length val <= max_list (map String.length col)).
    { apply max_list_elem_of_le, list_elem_of_fmap. exists val.
      split; [reflexivity |]. apply list_elem_of_lookup. eauto. }
    lia.
Qed.

Lemma format_table_aligned_witness :
  exists rows,
    format_table (["name"; "Griatch"] :: [["level"; "12"; "unused"]]) 2
    = inr rows
    /\ length rows = length ["name"; "Griatch"]
    /\ forall r row, rows !! r = Some row ->
         length row = length (["name"; "Griatch"] :: [["level"; "12"; "unused"]])
         /\ forall c col,
              (["name"; "Griatch"] :: [["level"; "12"; "unused"]]) !! c = Some col ->
              exists val cell,
                col !! r = Some val /\ row !! c = Some cell
                /\ startswith cell val = true
                /\ String.length cell
                   = max_list (map String.length col) + Z.to_nat 2.
Proof.
  apply format_table_aligned.
  - repeat constructor; discriminate.
  - repeat constructor.
Defined.

(** X26: when no column is empty but one is shorter than the first, the
    formatting raises [IndexError]. *)
Theorem format_table_ragged (first : list string) (rest : list (list string))
    (extra_space : Z) :
  Forall (fun col => col <> []) (first :: rest) ->
  Exists (fun col => length col < length first) rest ->
  format_table (first :: rest) extra_space = inl IndexError.
Proof.
  intros Hne Hshort. unfold format_table.
  destruct (mapE max_len (first :: rest)) as [e | widths] eqn:Hm.
  - apply mapE_error in Hm as [col [Hin Hcol]].
    rewrite Forall_forall in Hne. apply list_elem_of_In in Hin.
    rewrite (max_len_nonempty col (Hne col Hin)) in Hcol. discriminate.
  - match goal with |- ?m = _ => destruct m as [e | rows] eqn:Hrows end.
    + apply mapE_error in Hrows as [irow [_ Hrow]].
      apply mapE_error in Hrow as [[c col] [_ Hcell]].
      destruct (col !! irow); [discriminate |]. injection Hcell as <-.
      reflexivity.
    + exfalso. apply mapE_Forall2 in Hrows.
      apply Exists_exists in Hshort as [col [Hin Hlt]].
      apply list_elem_of_lookup in Hin as [c Hc].
      destruct (lookup_lt_is_Some_2 (seq 0 (length first)) (length col))
        as [irow Hirow]; [rewrite length_seq; exact Hlt |].
      pose proof Hirow as Hirow'. apply lookup_seq in Hirow' as [-> _].
      cbn [Nat.add] in Hirow.
      destruct (Forall2_lookup_l _ _ _ _ _ Hrows Hirow) as [row [_ Hrow]].
      apply mapE_Forall2 in Hrow.
      assert (He : enumerate (first :: rest) !! S c = Some (S c, col)).
      { exact (enumerate_at (first :: rest) 0 (S c) col Hc). }
      destruct (Forall2_lookup_l _ _ _ _ _ Hrow He) as [cell [_ Hcell]].
      cbn in Hcell. rewrite lookup_ge_None_2 in Hcell by lia.
      discriminate.
Qed.

Lemma format_table_ragged_witness :
  format_table (["a"; "b"; "c"] :: [["x"; "y"]]) 1 = inl IndexError.
Proof.
  apply format_table_ragged.
  - repeat constructor; discriminate.
  - left. cbn. lia.
Defined.

(** * Properties of [validate_email_address] *)

Section Splitting.

Lemma rsplit1_None (c : ascii) (s : string) :
  has_char c s = false -> rsplit1 c s = None.
Proof.
  induction s as [| x s IH]; [reflexivity |]. cbn [has_char rsplit1].
  intros H. apply orb_false_elim in H as [Hx Hs]. rewrite (IH Hs), Hx.
  reflexivity.
Qed.

Lemma rsplit1_Some (c : ascii) (s a b : string) :
  rsplit1 c s = Some (a, b) -> s = a +:+ String c b /\ has_char c b = false.
Proof.
  revert a. induction s as [| x s IH]; intros a; [discriminate |].
  cbn [rsplit1]. destruct (rsplit1 c s) as [[a' b'] |] eqn:Hs.
  - intros [= <- <-]. destruct (IH a' eq_refl) as [-> Hb].
    split; [reflexivity | exact Hb].
  - destruct (Ascii.eqb_spec x c) as [-> | _]; [| discriminate].
    intros [= <- <-]. split; [reflexivity |].
    destruct (has_char c s) eqn:Hc; [| reflexivity].
    clear IH. exfalso. induction s as [| y s IHs]; [discriminate |].
    cbn [rsplit1] in Hs. cbn [has_char] in Hc.
    destruct (rsplit1 c s) as [[? ?] |]; [discriminate |].
    destruct (Ascii.eqb y c); [discriminate |]. apply IHs; [reflexivity |].
    exact Hc.
Qed.

Lemma rsplit1_app (c : ascii) (a b : string) :
  has_char c b = false -> rsplit1 c (a +:+ String c b) = Some (a, b).
Proof.
  intros Hb. induction a as [| x a IH].
  - change ("" +:+ String c b) with (String c b). cbn [rsplit1].
    rewrite (rsplit1_None _ _ Hb), Ascii.eqb_refl. reflexivity.
  - change (String x a +:+ String c b) with (String x (a +:+ String c b)).
    cbn [rsplit1]. rewrite IH. reflexivity.
Qed.

Lemma has_char_app (c : ascii) (a b : string) :
  has_char c (a +:+ b) = has_char c a || has_char c b.
Proof.
  induction a as [| x a IH]; [reflexivity |].
  change (String x a +:+ b) with (String x (a +:+ b)). cbn [has_char].
  rewrite IH, orb_assoc. reflexivity.
Qed.

End Splitting.

(** X27: an address that is accepted has at least 7 characters and the
    shape [local@host.top], where [top] holds no dot and has two characters
    or is one of the listed domains, and where [local] and [host], once
    their allowed punctuation is removed, are not empty and made of letters
    and digits only. *)
Theorem valid_email_shape (emailaddress : string) :
  validate_email_address emailaddress = true ->
  7 <= String.length emailaddress
  /\ exists localpart host toplevel,
       emailaddress = localpart +:+ "@" +:+ host +:+ "." +:+ toplevel
       /\ has_char "." toplevel = false
       /\ (String.length toplevel = 2 \/ In toplevel domains)
       /\ isalnum (remove_chars "-_.%+." localpart) = true
       /\ isalnum (remove_chars "-_." host) = true.
Proof.
  unfold validate_email_address.
  destruct (Nat.ltb_spec (String.length emailaddress) 7); [discriminate |].
  destruct (rsplit1 "@" emailaddress) as [[localpart domainname] |] eqn:H1;
    [| discriminate].
  destruct (rsplit1 "." domainname) as [[host toplevel] |] eqn:H2;
    [| discriminate].
  destruct (negb (Nat.eqb (String.length toplevel) 2)
            && negb (existsb (String.eqb toplevel) domains)) eqn:Ht;
    [discriminate |].
  destruct (isalnum (remove_chars "-_.%+." localpart)) eqn:Hl; [| discriminate].
  destruct (isalnum (remove_chars "-_." host)) eqn:Hh; [| discriminate].
  intros _. split; [lia |].
  apply rsplit1_Some in H1 as [-> _]. apply rsplit1_Some in H2 as [-> Hdot].
  exists localpart, host, toplevel. repeat split; try assumption.
  apply andb_false_iff in Ht as [Ht | Ht]; apply negb_false_iff in Ht.
  - left. apply Nat.eqb_eq, Ht.
  - right. apply existsb_exists in Ht as [d [Hd Heq]].
    apply String.eqb_eq in Heq. subst d. exact Hd.
Qed.

Lemma valid_email_shape_witness :
  7 <= String.length "griatch@evennia.com"
  /\ exists localpart host toplevel,
       "griatch@evennia.com" = localpart +:+ "@" +:+ host +:+ "." +:+ toplevel
       /\ has_char "." toplevel = false
       /\ (String.length toplevel = 2 \/ In toplevel domains)
       /\ isalnum (remove_chars "-_.%+." localpart) = true
       /\ isalnum (remove_chars "-_." host) = true.
Proof. apply valid_email_shape. reflexivity. Defined.

(** X28: a top-level part of two characters is never looked into.  An
    address of at least 7 characters [local@host.top] is accepted as soon as
    [top] has two characters, none of them a dot or an at sign, [host] has
    no at sign, and [local] and [host] pass the test of letters and digits:
    ["ab@cd.!!"] is accepted. *)
Theorem two_character_toplevel_unchecked (localpart host toplevel : string) :
  String.length toplevel = 2 ->
  has_char "." toplevel = false ->
  has_char "@" toplevel = false ->
  has_char "@" host = false ->
  isalnum (remove_chars "-_.%+." localpart) = true ->
  isalnum (remove_chars "-_." host) = true ->
  7 <= String.length (localpart +:+ "@" +:+ host +:+ "." +:+ toplevel) ->
  validate_email_address (localpart +:+ "@" +:+ host +:+ "." +:+ toplevel)
  = true.
Proof.
  intros Hlen Hdot Hat Hhost Hl Hh H7. unfold validate_email_address.
  destruct (Nat.ltb_spec
              (String.length (localpart +:+ "@" +:+ host +:+ "." +:+ toplevel))
              7); [lia |].
  change (localpart +:+ "@" +:+ host +:+ "." +:+ toplevel)
    with (localpart +:+ String "@" (host +:+ String "." toplevel)).
  rewrite rsplit1_app.
  - rewrite (rsplit1_app _ _ _ Hdot), Hlen. cbn [Nat.eqb negb andb].
    rewrite Hl, Hh. reflexivity.
  - rewrite has_char_app, Hhost. cbn [has_char orb].
    replace (Ascii.eqb "." "@") with false by reflexivity. exact Hat.
Qed.

Lemma two_character_toplevel_unchecked_witness :
  validate_email_address ("ab" +:+ "@" +:+ "cd" +:+ "." +:+ "!!") = true.
Proof.
  apply two_character_toplevel_unchecked; try reflexivity. vm_compute. lia.
Defined.
